(** * Photobooth: capture sequencer and layout compositor

    A shallow embedding of [src/app/page.tsx] (the [PhotoboothSystem]
    component): the React state cells become one record, every handler a
    function on that record, the interval timers armed by [startCountdown]
    an explicit list of live timer ids, and the promise built by
    [generateFinalImage] a small state machine driven by the browser's
    image-load events.

    Conventions.
    - A JavaScript [number] used for canvas geometry is an exact rational
      ([Q]); counters and clock readings are integers.
    - What the browser decides (is a 2D context available, what frame the
      video shows, what time it is, which image finishes decoding next) is an
      explicit argument of the handler that observes it.
    - A state updater runs once per update, as React runs it outside the
      double invocation of its development-only strict mode.
    - [canvas.toDataURL] is kept symbolic: the encoded image is the canvas
      it was taken from. *)

From Stdlib Require Import List Bool Arith ZArith QArith Lia Lqa String.
From Stdlib Require Import DecimalString Permutation.
From Stdlib Require DecimalPos DecimalZ.
From Stdlib Require Import Qround.
Import ListNotations.

Local Open Scope Z_scope.

(** ** Data model (page.tsx, lines 12-37) *)

Inductive Screen := ScreenStart | ScreenTemplate | ScreenCamera | ScreenPreview.

Inductive Template := Strip | Grid | Collage | Single.

Record CapturedPhoto := mkPhoto {
  id : string;
  dataUrl : string;
  timestamp : Z
}.

Record TemplateInfo := mkTemplateInfo {
  t_id : Template;
  t_name : string;
  t_description : string;
  photoCount : Z
}.

Definition templates : list TemplateInfo :=
  [ mkTemplateInfo Strip "Photo Strip" "3 vertical photos" 3;
    mkTemplateInfo Grid "Grid Layout" "2x2 photo grid" 4;
    mkTemplateInfo Collage "Collage Style" "Creative layout" 3;
    mkTemplateInfo Single "Single Shot" "One large photo" 1 ].

Record Background := mkBackground {
  bg_id : string;
  bg_name : string;
  bg_color : string
}.

Definition backgrounds : list Background :=
  [ mkBackground "white" "White" "#ffffff";
    mkBackground "black" "Black" "#000000";
    mkBackground "gray" "Gray" "#6b7280";
    mkBackground "pattern" "Pattern"
      "repeating-linear-gradient(45deg, #000 0px, #000 10px, #fff 10px, #fff 20px)" ].

Record Style := mkStyle {
  borderWidth : Q;
  spacing : Q;
  cornerRadius : Q
}.

Definition Template_eqb (a b : Template) : bool :=
  match a, b with
  | Strip, Strip | Grid, Grid | Collage, Collage | Single, Single => true
  | _, _ => false
  end.

(** ** Application state (page.tsx, lines 40-55)

    [timers] lists the interval timers that were armed by [setInterval] and
    not yet cleared; [nextTimer] is the id the next [setInterval] returns. *)

Record AppState := mkApp {
  currentScreen : Screen;
  selectedTemplate : option Template;
  capturedPhotos : list CapturedPhoto;
  currentPhotoIndex : Z;
  countdown : option Z;
  selectedBackground : string;
  templateStyle : Style;
  timers : list nat;
  nextTimer : nat
}.

Definition initialState : AppState :=
  {| currentScreen := ScreenStart;
     selectedTemplate := None;
     capturedPhotos := [];
     currentPhotoIndex := 0;
     countdown := None;
     selectedBackground := "white";
     templateStyle := mkStyle 2 4 0;
     timers := [];
     nextTimer := 0 |}.

(** State setters, one per [useState] cell. *)

Definition setCurrentScreen (v : Screen) (s : AppState) : AppState :=
  mkApp v (selectedTemplate s) (capturedPhotos s) (currentPhotoIndex s)
        (countdown s) (selectedBackground s) (templateStyle s) (timers s) (nextTimer s).

Definition setSelectedTemplate (v : option Template) (s : AppState) : AppState :=
  mkApp (currentScreen s) v (capturedPhotos s) (currentPhotoIndex s)
        (countdown s) (selectedBackground s) (templateStyle s) (timers s) (nextTimer s).

Definition setCapturedPhotos (v : list CapturedPhoto) (s : AppState) : AppState :=
  mkApp (currentScreen s) (selectedTemplate s) v (currentPhotoIndex s)
        (countdown s) (selectedBackground s) (templateStyle s) (timers s) (nextTimer s).

Definition setCurrentPhotoIndex (v : Z) (s : AppState) : AppState :=
  mkApp (currentScreen s) (selectedTemplate s) (capturedPhotos s) v
        (countdown s) (selectedBackground s) (templateStyle s) (timers s) (nextTimer s).

Definition setCountdown (v : option Z) (s : AppState) : AppState :=
  mkApp (currentScreen s) (selectedTemplate s) (capturedPhotos s) (currentPhotoIndex s)
        v (selectedBackground s) (templateStyle s) (timers s) (nextTimer s).

Definition setSelectedBackground (v : string) (s : AppState) : AppState :=
  mkApp (currentScreen s) (selectedTemplate s) (capturedPhotos s) (currentPhotoIndex s)
        (countdown s) v (templateStyle s) (timers s) (nextTimer s).

Definition setTemplateStyle (v : Style) (s : AppState) : AppState :=
  mkApp (currentScreen s) (selectedTemplate s) (capturedPhotos s) (currentPhotoIndex s)
        (countdown s) (selectedBackground s) v (timers s) (nextTimer s).

(** [setInterval] arms a fresh timer; [clearInterval] disarms one. *)

Definition setInterval (s : AppState) : AppState :=
  mkApp (currentScreen s) (selectedTemplate s) (capturedPhotos s) (currentPhotoIndex s)
        (countdown s) (selectedBackground s) (templateStyle s)
        (nextTimer s :: timers s) (S (nextTimer s)).

Definition clearInterval (t : nat) (s : AppState) : AppState :=
  mkApp (currentScreen s) (selectedTemplate s) (capturedPhotos s) (currentPhotoIndex s)
        (countdown s) (selectedBackground s) (templateStyle s)
        (filter (fun u => negb (Nat.eqb u t)) (timers s)) (nextTimer s).

(** ** Capture sequencer (page.tsx, lines 78-125) *)

(** What [capturePhoto] observes of the browser when it runs: whether the
    hidden canvas yields a 2D context, the encoded frame [toDataURL] returns,
    and the two readings of [Date.now()]. *)
Record CaptureEnv := mkCaptureEnv {
  ctx2d : bool;
  frame : string;
  nowId : Z;
  nowStamp : Z
}.

(** [Number.prototype.toString] on an integer clock reading. *)
Definition toString (n : Z) : string := NilZero.string_of_int (Z.to_int n).

(** [videoRef.current] and [canvasRef.current] are the <video> and <canvas>
    elements of the camera screen (lines 368-369): they are attached exactly
    while that screen is rendered. *)
Definition refsAttached (s : AppState) : bool :=
  match currentScreen s with ScreenCamera => true | _ => false end.

Definition capturePhoto (e : CaptureEnv) (s : AppState) : AppState :=
  if negb (refsAttached s) then s
  else if negb (ctx2d e) then s
  else
    let newPhoto := mkPhoto (toString (nowId e)) (frame e) (nowStamp e) in
    setCurrentPhotoIndex (currentPhotoIndex s + 1)
      (setCapturedPhotos (capturedPhotos s ++ [newPhoto]) s).

(** [startCountdown]: set the countdown to 3 and arm an interval timer. *)
Definition startCountdown (s : AppState) : AppState :=
  setInterval (setCountdown (Some 3) s).

(** One firing of the interval timer [t] armed by [startCountdown]: the
    updater passed to [setCountdown] (lines 111-118). A cleared timer does
    not fire. *)
Definition timerTick (t : nat) (e : CaptureEnv) (s : AppState) : AppState :=
  if negb (existsb (Nat.eqb t) (timers s)) then s
  else
    match countdown s with
    | None => setCountdown None (capturePhoto e (clearInterval t s))
    | Some prev =>
        if prev <=? 1
        then setCountdown None (capturePhoto e (clearInterval t s))
        else setCountdown (Some (prev - 1)) s
    end.

Definition resetPhotos (s : AppState) : AppState :=
  setCurrentPhotoIndex 0 (setCapturedPhotos [] s).

(** ** The camera screen's controls (page.tsx, lines 350-450) *)

Definition findTemplate (t : option Template) : option TemplateInfo :=
  match t with
  | None => None
  | Some t' => find (fun i => Template_eqb (t_id i) t') templates
  end.

Definition remainingPhotos (s : AppState) : Z :=
  match findTemplate (selectedTemplate s) with
  | Some template => photoCount template - Z.of_nat (List.length (capturedPhotos s))
  | None => 0
  end.

(** The [disabled] attribute of the TAKE PHOTO button (line 382). *)
Definition takePhotoDisabled (s : AppState) : bool :=
  match countdown s with Some _ => true | None => false end
  || (remainingPhotos s =? 0).

(** Everything that can happen to the application: a click on a control of
    the screen being shown, or a timer firing. *)
Inductive Event :=
| ClickStartSession
| ClickTemplateCard (t : Template)
| ClickTemplateBack
| ClickTakePhoto
| ClickRetry
| ClickPreview
| ClickBackToTemplates
| ChangeBackground (b : string)
| ChangeBorderWidth (v : Q)
| ChangeSpacing (v : Q)
| ClickNewSession
| TimerFires (t : nat) (e : CaptureEnv).

Definition handle (ev : Event) (s : AppState) : AppState :=
  match ev, currentScreen s with
  | ClickStartSession, ScreenStart => setCurrentScreen ScreenTemplate s
  | ClickTemplateCard t, ScreenTemplate =>
      setCurrentScreen ScreenCamera (setSelectedTemplate (Some t) s)
  | ClickTemplateBack, ScreenTemplate => setCurrentScreen ScreenStart s
  | ClickTakePhoto, ScreenCamera =>
      if takePhotoDisabled s then s else startCountdown s
  | ClickRetry, ScreenCamera => resetPhotos s
  | ClickPreview, ScreenCamera =>
      if remainingPhotos s =? 0 then setCurrentScreen ScreenPreview s else s
  | ClickBackToTemplates, ScreenCamera => setCurrentScreen ScreenTemplate s
  | ChangeBackground b, ScreenPreview => setSelectedBackground b s
  | ChangeBorderWidth v, ScreenPreview =>
      setTemplateStyle (mkStyle v (spacing (templateStyle s))
                                (cornerRadius (templateStyle s))) s
  | ChangeSpacing v, ScreenPreview =>
      setTemplateStyle (mkStyle (borderWidth (templateStyle s)) v
                                (cornerRadius (templateStyle s))) s
  | ClickNewSession, ScreenPreview =>
      setCurrentScreen ScreenStart
        (setSelectedTemplate None
           (setCurrentPhotoIndex 0 (setCapturedPhotos [] s)))
  | TimerFires t e, _ => timerTick t e s
  | _, _ => s
  end.

Definition run (evs : list Event) (s : AppState) : AppState :=
  fold_left (fun st ev => handle ev st) evs s.

Definition requiredCount (t : Template) : Z :=
  match findTemplate (Some t) with
  | Some info => photoCount info
  | None => 0
  end.

(** ** Raster surface

    A canvas with its 2D context: the size, the context's [fillStyle] and
    smoothing settings, and the log of drawing commands in the order they
    were issued. *)

Record Rect := mkRect { rx : Q; ry : Q; rw : Q; rh : Q }.

(** The 20x20 tile built by [createPatternCanvas]: solid fills only. *)
Record PatternTile := mkTile {
  tileWidth : Z;
  tileHeight : Z;
  tileFills : list (string * Rect)
}.

Inductive FillStyle :=
| Color (c : string)
| Pattern (tile : PatternTile).

Inductive DrawOp :=
| FillRect (style : FillStyle) (r : Rect)
| DrawImage (src : string) (r : Rect).

Record Surface := mkSurface {
  width : Z;
  height : Z;
  fillStyle : FillStyle;
  imageSmoothingEnabled : bool;
  imageSmoothingQuality : string;
  ops : list DrawOp
}.

(** [document.createElement("canvas")]: 300x150, nothing drawn; the default
    [fillStyle] of a context is black. *)
Definition createCanvas : Surface :=
  mkSurface 300 150 (Color "#000000") true "low" [].

(** Assigning [canvas.width] / [canvas.height] (this also clears the canvas). *)
Definition setSize (w h : Z) (c : Surface) : Surface :=
  mkSurface w h (fillStyle c) (imageSmoothingEnabled c) (imageSmoothingQuality c) [].

Definition setSmoothing (en : bool) (q : string) (c : Surface) : Surface :=
  mkSurface (width c) (height c) (fillStyle c) en q (ops c).

Definition setFillStyle (f : FillStyle) (c : Surface) : Surface :=
  mkSurface (width c) (height c) f (imageSmoothingEnabled c) (imageSmoothingQuality c) (ops c).

Definition fillRect (r : Rect) (c : Surface) : Surface :=
  mkSurface (width c) (height c) (fillStyle c) (imageSmoothingEnabled c)
            (imageSmoothingQuality c) (ops c ++ [FillRect (fillStyle c) r]).

Definition drawImage (src : string) (r : Rect) (c : Surface) : Surface :=
  mkSurface (width c) (height c) (fillStyle c) (imageSmoothingEnabled c)
            (imageSmoothingQuality c) (ops c ++ [DrawImage src r]).

(** The result of [canvas.toDataURL("image/jpeg", q)], or the empty string. *)
Inductive Encoded :=
| EmptyUrl
| JpegOf (c : Surface) (quality : Q).

(** ** Layout compositor (page.tsx, lines 134-254) *)

Local Open Scope Q_scope.

Definition num (n : nat) : Q := inject_Z (Z.of_nat n).

(** The [switch] of lines 177-214: [x], [y], [width], [height] start at 0
    and are assigned by the case of the selected template. *)
Definition placement (t : option Template) (st : Style) (cw ch : Q) (index : nat) : Rect :=
  match t with
  | Some Strip =>
      let width := cw - spacing st * 4 in
      let height := (ch - spacing st * 8) / 3 in
      let x := spacing st * 2 in
      let y := spacing st * 2 + (height + spacing st * 2) * num index in
      mkRect x y width height
  | Some Grid =>
      let width := (cw - spacing st * 6) / 2 in
      let height := (ch - spacing st * 6) / 2 in
      let x := spacing st * 2 + (width + spacing st * 2) * num (index mod 2) in
      let y := spacing st * 2 + (height + spacing st * 2) * num (index / 2) in
      mkRect x y width height
  | Some Collage =>
      if Nat.eqb index 0 then
        let width := cw / 2 - spacing st * 2 in
        let height := ch - spacing st * 4 in
        let x := spacing st * 2 in
        let y := spacing st * 2 in
        mkRect x y width height
      else
        let width := cw / 2 - spacing st * 2 in
        let height := (ch - spacing st * 6) / 2 in
        let x := cw / 2 + spacing st in
        let y := spacing st * 2 + (height + spacing st * 2) * (num index - 1) in
        mkRect x y width height
  | Some Single =>
      let width := cw - spacing st * 4 in
      let height := ch - spacing st * 4 in
      let x := spacing st * 2 in
      let y := spacing st * 2 in
      mkRect x y width height
  | None => mkRect 0 0 0 0
  end.

(** The rectangle of the border [fillRect] (lines 219-224). *)
Definition borderRect (st : Style) (r : Rect) : Rect :=
  mkRect (rx r - borderWidth st * 2) (ry r - borderWidth st * 2)
         (rw r + borderWidth st * 4) (rh r + borderWidth st * 4).

(** What the compositor observes of the browser: whether the output canvas
    and the pattern canvas yield a 2D context, and whether [createPattern]
    returns a pattern. *)
Record ComposeEnv := mkComposeEnv {
  canvasCtx : bool;
  patternCtx : bool;
  createPatternOk : bool
}.

Definition createPatternCanvas (e : ComposeEnv) : PatternTile :=
  if patternCtx e then
    mkTile 20 20
      [ ("#000000"%string, mkRect 0 0 10 10);
        ("#000000"%string, mkRect 10 10 10 10);
        ("#ffffff"%string, mkRect 10 0 10 10);
        ("#ffffff"%string, mkRect 0 10 10 10) ]
  else mkTile 20 20 [].

Inductive Promise :=
| Pending
| Fulfilled (v : Encoded)
| Rejected.

(** [resolve]: settles a pending promise, does nothing to a settled one. *)
Definition resolvePromise (v : Encoded) (p : Promise) : Promise :=
  match p with Pending => Fulfilled v | _ => p end.

(** One run of [generateFinalImage]: the promise, the canvas it created (if
    it got that far), the closure variables [loadedCount] and [totalImages],
    the values of [selectedTemplate] and [templateStyle] the closures
    captured, and the [Image] objects whose [src] was set and whose load has
    neither completed nor failed yet, each with the index and photo its
    [onload] handler closes over. *)
Record Compose := mkCompose {
  promise : Promise;
  canvas : option Surface;
  loadedCount : Z;
  totalImages : Z;
  c_template : option Template;
  c_style : Style;
  images : list (nat * CapturedPhoto)
}.

Definition applyBackground (e : ComposeEnv) (selected : string) (c : Surface) : Surface :=
  match find (fun b => String.eqb (bg_id b) selected) backgrounds with
  | Some bg =>
      let c1 :=
        if String.eqb (bg_id bg) "pattern"
        then
          let patternCanvas := createPatternCanvas e in
          if createPatternOk e
          then setFillStyle (Pattern patternCanvas) c
          else setFillStyle (Color "#ffffff") c
        else setFillStyle (Color (bg_color bg)) c in
      fillRect (mkRect 0 0 (inject_Z (width c1)) (inject_Z (height c1))) c1
  | None => c
  end.

Fixpoint indexed {A} (from : nat) (l : list A) : list (nat * A) :=
  match l with
  | [] => []
  | a :: l' => (from, a) :: indexed (S from) l'
  end.

(** The promise executor up to the end of [forEach] (lines 135-237). *)
Definition generateFinalImage (e : ComposeEnv) (s : AppState) : Compose :=
  match selectedTemplate s, capturedPhotos s with
  | None, _ | _, [] =>
      mkCompose (Fulfilled EmptyUrl) None 0 0 (selectedTemplate s) (templateStyle s) []
  | Some t, _ :: _ =>
      let canvas := createCanvas in
      if negb (canvasCtx e)
      then mkCompose (Fulfilled EmptyUrl) (Some canvas) 0 0
                     (selectedTemplate s) (templateStyle s) []
      else
        let canvas := setSize 1600 (if Template_eqb t Strip then 2400 else 1600) canvas in
        let canvas := setSmoothing true "high" canvas in
        let canvas := applyBackground e (selectedBackground s) canvas in
        mkCompose Pending (Some canvas) 0
                  (Z.of_nat (List.length (capturedPhotos s)))
                  (selectedTemplate s) (templateStyle s)
                  (indexed 0 (capturedPhotos s))
  end.

(** The body of [img.onload] for the image of [photo] at [index]
    (lines 176-234), on the canvas [c]. *)
Definition drawPhoto (t : option Template) (st : Style) (index : nat)
           (photo : CapturedPhoto) (c : Surface) : Surface :=
  let r := placement t st (inject_Z (width c)) (inject_Z (height c)) index in
  let c1 :=
    if Qlt_le_dec 0 (borderWidth st)
    then fillRect (borderRect st r) (setFillStyle (Color "#000000") c)
    else c in
  drawImage (dataUrl photo) r c1.

Definition removeImage (i : nat) (l : list (nat * CapturedPhoto)) : list (nat * CapturedPhoto) :=
  filter (fun p => negb (Nat.eqb (fst p) i)) l.

Definition lookupImage (i : nat) (l : list (nat * CapturedPhoto)) : option CapturedPhoto :=
  option_map snd (find (fun p => Nat.eqb (fst p) i) l).

Definition onload (i : nat) (g : Compose) : Compose :=
  match lookupImage i (images g), canvas g with
  | Some photo, Some c =>
      let c' := drawPhoto (c_template g) (c_style g) i photo c in
      let loaded := (loadedCount g + 1)%Z in
      let p := if (loaded =? totalImages g)%Z
               then resolvePromise (JpegOf c' 1) (promise g)
               else promise g in
      mkCompose p (Some c') loaded (totalImages g) (c_template g) (c_style g)
                (removeImage i (images g))
  | _, _ => g
  end.

(** A failed decode: no [onerror] handler is registered, so nothing runs;
    the image will not load any more. *)
Definition onerror (i : nat) (g : Compose) : Compose :=
  mkCompose (promise g) (canvas g) (loadedCount g) (totalImages g)
            (c_template g) (c_style g) (removeImage i (images g)).

Inductive LoadEvent :=
| Loaded (i : nat)
| Failed (i : nat).

Definition settle (ev : LoadEvent) (g : Compose) : Compose :=
  match ev with
  | Loaded i => onload i g
  | Failed i => onerror i g
  end.

Definition runLoads (evs : list LoadEvent) (g : Compose) : Compose :=
  fold_left (fun st ev => settle ev st) evs g.

(** ** What an encoded image shows

    The pixel at a point is decided by the last command whose rectangle
    covers the point. A rectangle of negative width or height extends to the
    left of (above) its origin, as the canvas API has it. *)

Inductive Paint :=
| Blank
| Filled (f : FillStyle)
| ImagePixel (src : string) (r : Rect).

Definition within (lo len p : Q) : bool :=
  if Qlt_le_dec len 0
  then Qle_bool (lo + len) p && negb (Qle_bool lo p)
  else Qle_bool lo p && negb (Qle_bool (lo + len) p).

Definition covers (r : Rect) (px py : Q) : bool :=
  within (rx r) (rw r) px && within (ry r) (rh r) py.

Definition opRect (op : DrawOp) : Rect :=
  match op with FillRect _ r => r | DrawImage _ r => r end.

Definition paintOf (op : DrawOp) : Paint :=
  match op with
  | FillRect f _ => Filled f
  | DrawImage src r => ImagePixel src r
  end.

Definition paintOver (px py : Q) (below : Paint) (op : DrawOp) : Paint :=
  if covers (opRect op) px py then paintOf op else below.

Definition pixelAt (c : Surface) (px py : Q) : Paint :=
  fold_left (paintOver px py) (ops c) Blank.

Definition sameImage (c1 c2 : Surface) : Prop :=
  width c1 = width c2 /\ height c1 = height c2 /\
  forall px py,
    0 <= px -> px < inject_Z (width c1) ->
    0 <= py -> py < inject_Z (height c1) ->
    pixelAt c1 px py = pixelAt c2 px py.

Definition sameOutput (a b : Encoded) : Prop :=
  match a, b with
  | EmptyUrl, EmptyUrl => True
  | JpegOf c1 q1, JpegOf c2 q2 => q1 == q2 /\ sameImage c1 c2
  | _, _ => False
  end.

Definition sameResult (p q : Promise) : Prop :=
  match p, q with
  | Pending, Pending => True
  | Fulfilled a, Fulfilled b => sameOutput a b
  | Rejected, Rejected => True
  | _, _ => False
  end.

(** * Vocabulary of the properties *)

(** ** Sessions of the capture sequencer *)

Local Open Scope Z_scope.

(** The bound on the photo sequence: with template [t] active, at most
    [requiredCount t] photos. *)
Definition withinBound (s : AppState) : Prop :=
  match selectedTemplate s with
  | Some t => Z.of_nat (List.length (capturedPhotos s)) <= requiredCount t
  | None => True
  end.

(** The invariant that makes the TAKE PHOTO gate work: at most one timer is
    armed, one is armed exactly while the countdown shows, and while one is
    armed there is room for one more photo. *)
Definition gated (s : AppState) : Prop :=
  (List.length (timers s) <= 1)%nat /\
  (timers s = [] <-> countdown s = None) /\
  (forall t, selectedTemplate s = Some t ->
     Z.of_nat (List.length (capturedPhotos s)) <= requiredCount t /\
     (timers s <> [] ->
      Z.of_nat (List.length (capturedPhotos s)) < requiredCount t)).

(** A template card is only clicked while no photo is held. *)
Definition freshSelection (ev : Event) (s : AppState) : Prop :=
  match ev with
  | ClickTemplateCard _ => capturedPhotos s = []
  | _ => True
  end.

(** Sessions in which every template card is clicked with no photo held. *)
Inductive freshRun : list Event -> AppState -> AppState -> Prop :=
| freshRun_nil s : freshRun [] s s
| freshRun_cons ev evs s s' :
    freshSelection ev s -> freshRun evs (handle ev s) s' ->
    freshRun (ev :: evs) s s'.

(** The frame and clock used in the concrete sessions below. *)
Definition sampleEnv : CaptureEnv :=
  mkCaptureEnv true "data:image/jpeg;base64,/9j/4AAQ" 1700000000000 1700000000001.

(** One press of TAKE PHOTO followed by the three ticks of timer [t]. *)
Definition shot (t : nat) : list Event :=
  [ClickTakePhoto; TimerFires t sampleEnv; TimerFires t sampleEnv; TimerFires t sampleEnv].

(** A session: four photos for the grid, then BACK TO TEMPLATES and the
    single-shot card. *)
Definition reselectSession : list Event :=
  [ClickStartSession; ClickTemplateCard Grid]
    ++ shot 0 ++ shot 1 ++ shot 2 ++ shot 3
    ++ [ClickBackToTemplates; ClickTemplateCard Single].

(** The camera screen right after the grid card was clicked. *)
Definition cameraIdle : AppState :=
  run [ClickStartSession; ClickTemplateCard Grid] initialState.

(** The camera screen one tick into a countdown. *)
Definition counting : AppState :=
  run [ClickTakePhoto; TimerFires 0 sampleEnv] cameraIdle.

(** Ticks of timers [0] and [1] interleaved, as when [startCountdown] is
    invoked again half a second into a countdown. *)
Definition interleavedTicks : list Event :=
  [TimerFires 0 sampleEnv; TimerFires 1 sampleEnv;
   TimerFires 0 sampleEnv; TimerFires 1 sampleEnv].

(** ** Placement rectangles *)

Local Open Scope Q_scope.

(** [k] rows of height [h], separated and surrounded by the margin
    [2 * spacing], fill a column of height [ch]. *)
Definition rowsFill (k : nat) (st : Style) (ch h : Q) : Prop :=
  num k * (h + spacing st * 2) + spacing st * 2 == ch.

(** The collage layout in the specification's words, for a sequence of
    [n + 1] photos: index 0 takes the left half at full height, indices
    [1..n] take the right half, stacked in [n - 1] equal rows. *)
Definition collageAsSpecified (n : nat) (st : Style) (cw ch : Q) : Prop :=
  let s := spacing st in
  let l := placement (Some Collage) st cw ch 0 in
  (rx l == 2 * s /\ ry l == 2 * s /\ rw l == cw / 2 - 2 * s /\ rh l == ch - 4 * s) /\
  forall i, (1 <= i <= n)%nat ->
    let r := placement (Some Collage) st cw ch i in
    rx r == cw / 2 + s /\ rw r == cw / 2 - 2 * s /\
    rowsFill (n - 1) st ch (rh r) /\
    ry r == 2 * s + (rh r + 2 * s) * (num i - 1).

(** The border of a photo stops short of the neighbouring photos: the gap
    between two photos is [2 * spacing] in the strip and the grid, and
    [spacing] between the two halves of the collage, and a border is
    [2 * borderWidth] wide. *)
Definition borderClear (t : Template) (st : Style) : Prop :=
  match t with
  | Strip | Grid => borderWidth st <= spacing st
  | Collage => 2 * borderWidth st <= spacing st
  | Single => True
  end.

(** ** Composition runs *)

Local Open Scope nat_scope.

(** The height [generateFinalImage] gives the canvas (line 150). *)
Definition outputHeight (t : Template) : Z :=
  if Template_eqb t Strip then 2400%Z else 1600%Z.

(** The canvas as [generateFinalImage] leaves it before any image loads. *)
Definition preparedCanvas (e : ComposeEnv) (s : AppState) (t : Template) : Surface :=
  applyBackground e (selectedBackground s)
    (setSmoothing true "high" (setSize 1600 (outputHeight t) createCanvas)).

(** The three early exits of [generateFinalImage]. *)
Definition degenerate (e : ComposeEnv) (s : AppState) : Prop :=
  selectedTemplate s = None \/ capturedPhotos s = [] \/ canvasCtx e = false.

(** What holds of a run of [generateFinalImage e s] with template [t] after
    the events [evs]: [done] lists the indices whose load handler has run. *)
Definition running (e : ComposeEnv) (s : AppState) (t : Template)
           (evs : list LoadEvent) (g : Compose) : Prop :=
  c_template g = Some t /\ c_style g = templateStyle s /\
  totalImages g = Z.of_nat (List.length (capturedPhotos s)) /\
  exists c done,
    canvas g = Some c /\ width c = 1600%Z /\ height c = outputHeight t /\
    NoDup done /\ loadedCount g = Z.of_nat (List.length done) /\
    (forall i, In i done ->
       In (Loaded i) evs /\
       exists p, nth_error (capturedPhotos s) i = Some p /\
                 In (DrawImage (dataUrl p)
                       (placement (Some t) (templateStyle s) 1600
                                  (inject_Z (outputHeight t)) i))
                    (ops c)) /\
    (forall i p, In (i, p) (images g) ->
       nth_error (capturedPhotos s) i = Some p /\ ~ In i done) /\
    promise g = (if Nat.eqb (List.length done) (List.length (capturedPhotos s))
                 then Fulfilled (JpegOf c 1) else Pending).

(** The commands one load handler issues on a canvas of size [w] x [h]. *)
Definition photoOps (t : option Template) (st : Style) (w h : Z)
           (i : nat) (p : CapturedPhoto) : list DrawOp :=
  let r := placement t st (inject_Z w) (inject_Z h) i in
  (if Qlt_le_dec 0 (borderWidth st)
   then [FillRect (Color "#000000") (borderRect st r)]
   else [])
  ++ [DrawImage (dataUrl p) r].

(** The canvas after the load handlers of the indices [l] ran in that order. *)
Definition loadAll (t : option Template) (st : Style) (P : list CapturedPhoto)
           (l : list nat) (c : Surface) : Surface :=
  fold_left (fun c i => match nth_error P i with
                        | Some p => drawPhoto t st i p c
                        | None => c
                        end) l c.

(** The commands the load handlers of the indices [l] issue, in order. *)
Definition loadOps (t : option Template) (st : Style) (P : list CapturedPhoto)
           (w h : Z) (l : list nat) : list DrawOp :=
  flat_map (fun i => match nth_error P i with
                     | Some p => photoOps t st w h i p
                     | None => []
                     end) l.

(** The claim C4 for one run: the promise is fulfilled only after the load
    handler of every photo of the sequence has run. *)
Definition resolvesOnlyAfterAllLoads (e : ComposeEnv) (s : AppState) : Prop :=
  forall evs v,
    promise (runLoads evs (generateFinalImage e s)) = Fulfilled v ->
    forall i, i < List.length (capturedPhotos s) -> In (Loaded i) evs.

(** The claim C3 for one run: any two orders in which the images of the
    sequence finish loading lead to the same result. *)
Definition orderIndependent (e : ComposeEnv) (s : AppState) : Prop :=
  forall o1 o2,
    Permutation o1 (seq 0 (List.length (capturedPhotos s))) ->
    Permutation o2 (seq 0 (List.length (capturedPhotos s))) ->
    sameResult (promise (runLoads (map Loaded o1) (generateFinalImage e s)))
               (promise (runLoads (map Loaded o2) (generateFinalImage e s))).

(** What a settled promise shows at a point of its image. *)
Definition shownAt (p : Promise) (px py : Q) : Paint :=
  match p with
  | Fulfilled (JpegOf c _) => pixelAt c px py
  | _ => Blank
  end.

(** A strip of three photos with the widest border and no spacing. *)
Definition wideBorderStrip : AppState :=
  mkApp ScreenPreview (Some Strip)
        [mkPhoto "1" "data:image/jpeg;base64,AAAA" 1;
         mkPhoto "2" "data:image/jpeg;base64,BBBB" 2;
         mkPhoto "3" "data:image/jpeg;base64,CCCC" 3]
        3%Z None "white" (mkStyle 10 0 0) [] 3.

(** ** The paint at a point of the composite *)

(** Does the photo rectangle, or the border rectangle, of index [i] cover
    the point [(px, py)] of a [w] x [h] canvas? *)
Definition inPhoto (t : option Template) (st : Style) (w h : Z) (px py : Q)
           (i : nat) : bool :=
  covers (placement t st (inject_Z w) (inject_Z h) i) px py.

Definition inBorder (t : option Template) (st : Style) (w h : Z) (px py : Q)
           (i : nat) : bool :=
  covers (borderRect st (placement t st (inject_Z w) (inject_Z h) i)) px py.

(** The test [templateStyle.borderWidth > 0] of line 217. *)
Definition bordered (st : Style) : bool :=
  if Qlt_le_dec 0 (borderWidth st) then true else false.

(** No photo rectangle of [l] that covers the point shares it with the photo
    or border rectangle of another index of [l]. *)
Definition apart (t : option Template) (st : Style) (w h : Z) (px py : Q)
           (l : list nat) : Prop :=
  forall i j, In i l -> In j l -> i <> j ->
    inPhoto t st w h px py i = true ->
    inPhoto t st w h px py j = false /\ inBorder t st w h px py j = false.

(** The paint at the point, told without reference to the drawing order:
    the photo whose rectangle covers it, else border black if some border
    rectangle covers it, else what was there before. *)
Definition layered (t : option Template) (st : Style) (P : list CapturedPhoto)
           (w h : Z) (px py : Q) (l : list nat) (below : Paint) : Paint :=
  match find (inPhoto t st w h px py) l with
  | Some i =>
      match nth_error P i with
      | Some p => ImagePixel (dataUrl p) (placement t st (inject_Z w) (inject_Z h) i)
      | None => Blank
      end
  | None =>
      if bordered st && existsb (inBorder t st w h px py) l
      then Filled (Color "#000000") else below
  end.

(** * The rest of the component *)

(** ** Camera acquisition (page.tsx, lines 57-76 and 256-264)

    [streamRef] holds the id of the stream stored in [streamRef.current];
    [liveStreams] lists the streams whose tracks have not been stopped;
    [pendingMedia] lists the calls of [getUserMedia] that the browser has not
    answered yet. The stream a call yields carries the id of the call. *)

Record CameraState := mkCamera {
  app : AppState;
  streamRef : option nat;
  liveStreams : list nat;
  pendingMedia : list nat;
  nextMedia : nat;
  errorsLogged : nat
}.

Definition Screen_eqb (a b : Screen) : bool :=
  match a, b with
  | ScreenStart, ScreenStart | ScreenTemplate, ScreenTemplate
  | ScreenCamera, ScreenCamera | ScreenPreview, ScreenPreview => true
  | _, _ => false
  end.

(** [startCamera] up to its [await]: the call of [getUserMedia]. *)
Definition startCamera (c : CameraState) : CameraState :=
  mkCamera (app c) (streamRef c) (liveStreams c)
           (nextMedia c :: pendingMedia c) (S (nextMedia c)) (errorsLogged c).

(** [stopCamera]: stop the tracks of the stored stream and forget it. *)
Definition stopCamera (c : CameraState) : CameraState :=
  match streamRef c with
  | Some k =>
      mkCamera (app c) None
               (filter (fun j => negb (Nat.eqb j k)) (liveStreams c))
               (pendingMedia c) (nextMedia c) (errorsLogged c)
  | None => c
  end.

(** The rest of [startCamera] when the call [r] yields a stream: it is
    stored only if the <video> element is mounted. *)
Definition mediaGranted (r : nat) (c : CameraState) : CameraState :=
  if negb (existsb (Nat.eqb r) (pendingMedia c)) then c
  else
    mkCamera (app c)
             (if refsAttached (app c) then Some r else streamRef c)
             (r :: liveStreams c)
             (filter (fun j => negb (Nat.eqb j r)) (pendingMedia c))
             (nextMedia c) (errorsLogged c).

(** The [catch] branch of [startCamera]: the error is logged. *)
Definition mediaDenied (r : nat) (c : CameraState) : CameraState :=
  if negb (existsb (Nat.eqb r) (pendingMedia c)) then c
  else
    mkCamera (app c) (streamRef c) (liveStreams c)
             (filter (fun j => negb (Nat.eqb j r)) (pendingMedia c))
             (nextMedia c) (S (errorsLogged c)).

(** The body of the effect of lines 256-264, and its cleanup. *)
Definition cameraEffect (c : CameraState) : CameraState :=
  match currentScreen (app c) with
  | ScreenCamera => startCamera c
  | _ => stopCamera c
  end.

Definition cameraCleanup (c : CameraState) : CameraState := stopCamera c.

Inductive CameraEvent :=
| Ui (ev : Event)
| MediaGranted (r : nat)
| MediaDenied (r : nat).

(** An application event re-runs the effect (cleanup, then body) when it
    changed [currentScreen], the only dependency of the effect that ever
    changes. *)
Definition cameraStep (ev : CameraEvent) (c : CameraState) : CameraState :=
  match ev with
  | Ui u =>
      let a := handle u (app c) in
      let c' := mkCamera a (streamRef c) (liveStreams c) (pendingMedia c)
                         (nextMedia c) (errorsLogged c) in
      if Screen_eqb (currentScreen a) (currentScreen (app c)) then c'
      else cameraEffect (cameraCleanup c')
  | MediaGranted r => mediaGranted r c
  | MediaDenied r => mediaDenied r c
  end.

(** The component once mounted: the effect has run on the start screen. *)
Definition mountedCamera : CameraState :=
  cameraEffect (mkCamera initialState None [] [] 0 0).

Definition runCamera (evs : list CameraEvent) (c : CameraState) : CameraState :=
  fold_left (fun st ev => cameraStep ev st) evs c.

(** ** Export (page.tsx, lines 127-132 and 492-497) *)

(** The link [downloadImage] builds and clicks. *)
Record Download := mkDownload {
  href : string;
  download : string
}.

Definition downloadImage (dataUrl filename : string) : Download :=
  mkDownload dataUrl filename.

(** The template literal of line 495; [now] is the reading of [Date.now()]
    made for that photo. *)
Definition photoFilename (index : nat) (now : Z) : string :=
  ("photo-" ++ toString (Z.of_nat index + 1) ++ "-" ++ toString now ++ ".jpg")%string.

(** The ALL PHOTOS button: one download per photo, in sequence order;
    [clock i] is the reading of [Date.now()] made for the photo at [i]. *)
Definition downloadAllPhotos (clock : nat -> Z) (photos : list CapturedPhoto)
  : list Download :=
  map (fun ip => downloadImage (dataUrl (snd ip))
                               (photoFilename (fst ip) (clock (fst ip))))
      (indexed 0 photos).

(** ** Vocabulary of the further properties *)

(** The colour of the pattern tile at a point: the last fill covering it. *)
Definition tileColorAt (tile : PatternTile) (px py : Q) : option string :=
  fold_left (fun acc f => if covers (snd f) px py then Some (fst f) else acc)
            (tileFills tile) None.

(** The events that empty the photo sequence. *)
Definition resetsPhotos (ev : Event) : bool :=
  match ev with
  | ClickRetry | ClickNewSession => true
  | _ => false
  end.

(** Does the firing of timer [t] in state [s] get as far as the
    [Date.now()] of line 99? The timer must be armed, the countdown must be
    at its last tick (lines 112-114), and [capturePhoto] must pass its
    guards (lines 79 and 85). *)
Definition capturesAt (t : nat) (e : CaptureEnv) (s : AppState) : bool :=
  existsb (Nat.eqb t) (timers s)
  && match countdown s with
     | None => true
     | Some prev => (prev <=? 1)%Z
     end
  && refsAttached s
  && ctx2d e.

(** The reading of [Date.now()] an event takes for a photo id, if any. *)
Definition clockRead (ev : Event) (s : AppState) : list Z :=
  match ev with
  | TimerFires t e => if capturesAt t e s then [nowId e] else []
  | _ => []
  end.

(** The readings of [Date.now()] taken for photo ids while the events [evs]
    are handled from state [s], in order. *)
Fixpoint captureClocks (evs : list Event) (s : AppState) : list Z :=
  match evs with
  | [] => []
  | ev :: evs' => (clockRead ev s ++ captureClocks evs' (handle ev s))%list
  end.



(** The events that start or advance a countdown. *)
Definition drivesCountdown (ev : Event) : bool :=
  match ev with
  | ClickTakePhoto | TimerFires _ _ => true
  | _ => false
  end.

(** What every state of a session satisfies, whatever the events were. *)
Definition sessionInvariant (s : AppState) : Prop :=
  currentPhotoIndex s = Z.of_nat (List.length (capturedPhotos s)) /\
  (List.length (timers s) <= 1)%nat /\
  (timers s = [] <-> countdown s = None) /\
  (forall n, countdown s = Some n -> (1 <= n <= 3)%Z) /\
  (currentScreen s = ScreenCamera \/ currentScreen s = ScreenPreview ->
   selectedTemplate s <> None) /\
  (currentScreen s = ScreenPreview -> remainingPhotos s = 0%Z).

(** What every state of the camera bookkeeping satisfies. *)
Definition cameraInvariant (c : CameraState) : Prop :=
  (forall k, streamRef c = Some k ->
     currentScreen (app c) = ScreenCamera /\ In k (liveStreams c)) /\
  (forall k, In k (liveStreams c) -> k < nextMedia c) /\
  (forall r, In r (pendingMedia c) -> r < nextMedia c) /\
  (forall k, In k (liveStreams c) -> ~ In k (pendingMedia c)).

(** A camera session in which a stream arrives after the camera screen was
    left. *)
Definition lateGrant : list CameraEvent :=
  [Ui ClickStartSession; Ui (ClickTemplateCard Strip);
   Ui ClickBackToTemplates; MediaGranted 0].

(** * Properties of the capture sequencer *)

Local Open Scope Z_scope.

Section CaptureSequencer.

Lemma Template_eqb_eq a b : Template_eqb a b = true <-> a = b.
Proof. destruct a, b; simpl; split; congruence. Qed.

Lemma requiredCount_values :
  requiredCount Strip = 3 /\ requiredCount Grid = 4 /\
  requiredCount Collage = 3 /\ requiredCount Single = 1.
Proof. repeat split; reflexivity. Qed.

Lemma requiredCount_pos t : 1 <= requiredCount t.
Proof. destruct t; vm_compute; congruence. Qed.

Lemma remainingPhotos_Some s t :
  selectedTemplate s = Some t ->
  remainingPhotos s = requiredCount t - Z.of_nat (List.length (capturedPhotos s)).
Proof.
  intros H. unfold remainingPhotos, requiredCount. rewrite H.
  destruct t; reflexivity.
Qed.

Lemma remainingPhotos_None s :
  selectedTemplate s = None -> remainingPhotos s = 0.
Proof. intros H. unfold remainingPhotos. now rewrite H. Qed.

Lemma gated_initial : gated initialState.
Proof.
  unfold gated; simpl. repeat split; auto; try discriminate.
Qed.

Lemma capturePhoto_cases e s :
  capturePhoto e s = s \/
  (refsAttached s = true /\ ctx2d e = true /\
   capturePhoto e s =
     setCurrentPhotoIndex (currentPhotoIndex s + 1)
       (setCapturedPhotos
          (capturedPhotos s ++ [mkPhoto (toString (nowId e)) (frame e) (nowStamp e)]) s)).
Proof.
  unfold capturePhoto.
  destruct (refsAttached s); simpl; auto.
  destruct (ctx2d e); simpl; auto.
Qed.

Lemma single_timer_cleared t l :
  (List.length l <= 1)%nat -> existsb (Nat.eqb t) l = true ->
  filter (fun u => negb (Nat.eqb u t)) l = [].
Proof.
  destruct l as [|a [|b l]]; simpl; intros Hl He; try discriminate; try lia.
  rewrite orb_false_r in He. apply Nat.eqb_eq in He. subst a.
  now rewrite Nat.eqb_refl.
Qed.

Lemma gated_timerTick t e s : gated s -> gated (timerTick t e s).
Proof.
  intros (Hlen & Hiff & Hb). unfold timerTick.
  destruct (existsb (Nat.eqb t) (timers s)) eqn:Hin; simpl;
    [|exact (conj Hlen (conj Hiff Hb))].
  assert (Hne : timers s <> []) by (destruct (timers s); simpl in Hin; congruence).
  assert (Hfire : gated (setCountdown None (capturePhoto e (clearInterval t s)))).
  { pose proof (single_timer_cleared t (timers s) Hlen Hin) as Hclr.
    destruct (capturePhoto_cases e (clearInterval t s)) as [-> | (_ & _ & ->)];
      unfold gated; simpl; rewrite Hclr; simpl;
      (split; [lia|]); (split; [tauto|]);
      intros t' Ht'; destruct (Hb t' Ht') as [Hle Hlt]; specialize (Hlt Hne);
      (split; [|congruence]); try lia.
    rewrite length_app; simpl. lia. }
  destruct (countdown s) as [prev|] eqn:Hc; [|exact Hfire].
  destruct (prev <=? 1); [exact Hfire|].
  unfold gated; simpl. split; [exact Hlen|]. split; [|exact Hb].
  split; intros H; [tauto|discriminate].
Qed.

Lemma gated_handle ev s :
  gated s -> freshSelection ev s -> gated (handle ev s).
Proof.
  intros Hg Hf. pose proof Hg as (Hlen & Hiff & Hb).
  destruct ev; unfold handle;
    try (destruct (currentScreen s); try exact Hg; unfold gated; simpl;
         repeat split; try tauto; try apply Hb; auto; fail).
  - (* template card *)
    destruct (currentScreen s); try exact Hg. simpl in Hf.
    unfold gated; simpl. rewrite Hf; simpl.
    split; [exact Hlen|]. split; [exact Hiff|].
    intros t' _. pose proof (requiredCount_pos t'). lia.
  - (* take photo *)
    destruct (currentScreen s); try exact Hg.
    destruct (takePhotoDisabled s) eqn:Hd; [exact Hg|].
    unfold takePhotoDisabled in Hd. apply orb_false_iff in Hd as [Hc Hr].
    destruct (countdown s) eqn:Hcd; [discriminate|].
    assert (Ht : timers s = []) by tauto.
    unfold gated, startCountdown; simpl. rewrite Ht; simpl.
    split; [lia|]. split; [split; discriminate|].
    intros t' Ht'. destruct (Hb t' Ht') as [Hle _].
    rewrite (remainingPhotos_Some s t' Ht') in Hr.
    apply Z.eqb_neq in Hr. split; [exact Hle|]. intros _. lia.
  - (* retry *)
    destruct (currentScreen s); try exact Hg.
    unfold gated, resetPhotos; simpl.
    split; [exact Hlen|]. split; [exact Hiff|].
    intros t' _. pose proof (requiredCount_pos t'). lia.
  - (* preview *)
    destruct (currentScreen s); try exact Hg.
    destruct (remainingPhotos s =? 0); exact Hg.
  - (* new session *)
    destruct (currentScreen s); try exact Hg.
    unfold gated; simpl. split; [exact Hlen|]. split; [exact Hiff|]. discriminate.
  - (* timer *)
    assert (Ht : gated (timerTick t e s)) by now apply gated_timerTick.
    destruct (currentScreen s); exact Ht.
Qed.

Lemma freshRun_run evs s s' : freshRun evs s s' -> s' = run evs s.
Proof. induction 1; simpl; auto. Qed.

(** As long as no template is selected over photos already held, the gate on
    TAKE PHOTO keeps the sequence within the bound. *)
Lemma bound_holds_without_reselection evs s' :
  freshRun evs initialState s' -> withinBound s'.
Proof.
  intros H.
  assert (Hg : gated s').
  { pose proof gated_initial as Hinit. revert Hinit.
    induction H as [s|ev evs s s' Hf Hr IH]; intros Hinit; auto.
    apply IH. now apply gated_handle. }
  destruct Hg as (_ & _ & Hb). unfold withinBound.
  destruct (selectedTemplate s') eqn:Ht; [|exact I]. now apply Hb.
Qed.

End CaptureSequencer.

Section CountdownCycle.

(** A second [startCountdown] during a countdown arms a second timer, and
    both timers capture. *)
Lemma reentrant_countdown_captures_twice :
  let s := run interleavedTicks (startCountdown counting) in
  List.length (capturedPhotos counting) = 0%nat /\
  List.length (capturedPhotos s) = 2%nat /\
  countdown s = None /\ timers s = [].
Proof. vm_compute. repeat split; reflexivity. Qed.

Lemma capturePhoto_same_view e s s' :
  currentScreen s' = currentScreen s ->
  capturedPhotos s' = capturedPhotos s ->
  currentPhotoIndex s' = currentPhotoIndex s ->
  capturedPhotos (capturePhoto e s') = capturedPhotos (capturePhoto e s) /\
  currentPhotoIndex (capturePhoto e s') = currentPhotoIndex (capturePhoto e s) /\
  timers (capturePhoto e s') = timers s' /\
  currentScreen (capturePhoto e s') = currentScreen s /\
  selectedTemplate (capturePhoto e s') = selectedTemplate s'.
Proof.
  intros Hs Hp Hi. unfold capturePhoto, refsAttached. rewrite Hs.
  destruct (currentScreen s); simpl; auto;
    destruct (ctx2d e); simpl; auto.
  rewrite Hp, Hi. auto.
Qed.

End CountdownCycle.

(** C1 (as the code has it). The session [reselectSession] is accepted
    event by event by the user interface: four photos are taken for the grid
    template, then BACK TO TEMPLATES and the single-shot card are clicked.
    The photo sequence is kept, so the active template is [Single]
    (required count 1) while four photos are held; the bound is broken, and
    since [remainingPhotos] is then -3 rather than 0 the TAKE PHOTO button is
    enabled and a fifth photo is captured. *)
Theorem reselection_exceeds_required_count :
  let s := run reselectSession initialState in
  selectedTemplate s = Some Single /\
  List.length (capturedPhotos s) = 4%nat /\
  requiredCount Single = 1 /\
  ~ withinBound s /\
  remainingPhotos s = -3 /\
  takePhotoDisabled s = false /\
  List.length (capturedPhotos (run (shot 4) s)) = 5%nat.
Proof.
  cbv zeta. repeat split; try (vm_compute; reflexivity).
  unfold withinBound.
  replace (selectedTemplate (run reselectSession initialState))
    with (Some Single) by (vm_compute; reflexivity).
  replace (List.length (capturedPhotos (run reselectSession initialState)))
    with 4%nat by (vm_compute; reflexivity).
  vm_compute. intros H. now apply H.
Qed.

(** C2 (counterexample). One tick into a countdown the countdown shows 2 and
    timer 0 is armed; [startCountdown] invoked in that state is not a no-op:
    it puts the countdown back to 3 and arms timer 1 as well. *)
Lemma startCountdown_while_counting_not_noop :
  (countdown counting = Some 2 /\ timers counting = [0%nat]) /\
  (countdown (startCountdown counting) = Some 3 /\
   timers (startCountdown counting) = [1%nat; 0%nat]) /\
  ~ (forall s, countdown s <> None -> startCountdown s = s).
Proof.
  split; [split; reflexivity|]. split; [split; reflexivity|].
  intros H. specialize (H counting).
  assert (Hc : countdown counting <> None) by (vm_compute; discriminate).
  apply H in Hc. apply (f_equal countdown) in Hc.
  vm_compute in Hc. discriminate.
Qed.

(** C2 (amended). [startCountdown] has no guard of its own: in every state
    it sets the countdown to 3 and arms one more timer, and it is the TAKE
    PHOTO button that ignores clicks while a countdown shows. Started when
    no countdown shows and no timer is armed, the cycle counts 3, 2, 1
    without touching the photos, and the third tick disarms the timer, calls
    [capturePhoto] once and clears the countdown; the disarmed timer does
    nothing afterwards. *)
Theorem countdown_cycle_captures_once (s : AppState) (e1 e2 e3 : CaptureEnv) :
  countdown s = None -> timers s = [] ->
  let t := nextTimer s in
  let s1 := startCountdown s in
  let s2 := timerTick t e1 s1 in
  let s3 := timerTick t e2 s2 in
  let s4 := timerTick t e3 s3 in
  (forall u, countdown (startCountdown u) = Some 3 /\
             timers (startCountdown u) = nextTimer u :: timers u) /\
  (forall u, countdown u <> None -> handle ClickTakePhoto u = u) /\
  (countdown s1 = Some 3 /\ countdown s2 = Some 2 /\ countdown s3 = Some 1) /\
  (capturedPhotos s1 = capturedPhotos s /\ capturedPhotos s2 = capturedPhotos s /\
   capturedPhotos s3 = capturedPhotos s) /\
  (timers s1 = [t] /\ timers s2 = [t] /\ timers s3 = [t]) /\
  capturedPhotos s4 = capturedPhotos (capturePhoto e3 s) /\
  currentPhotoIndex s4 = currentPhotoIndex (capturePhoto e3 s) /\
  (refsAttached s = true -> ctx2d e3 = true ->
   capturedPhotos s4 =
     capturedPhotos s ++ [mkPhoto (toString (nowId e3)) (frame e3) (nowStamp e3)]) /\
  countdown s4 = None /\ timers s4 = [] /\
  (forall e, timerTick t e s4 = s4).
Proof.
  intros Hc Ht. cbv zeta.
  assert (E1 : timerTick (nextTimer s) e1 (startCountdown s)
               = setCountdown (Some 2) (startCountdown s)).
  { unfold timerTick, startCountdown; simpl. now rewrite Nat.eqb_refl. }
  assert (E2 : timerTick (nextTimer s) e2 (setCountdown (Some 2) (startCountdown s))
               = setCountdown (Some 1) (startCountdown s)).
  { unfold timerTick, startCountdown; simpl. now rewrite Nat.eqb_refl. }
  assert (E3 : timerTick (nextTimer s) e3 (setCountdown (Some 1) (startCountdown s))
               = setCountdown None
                   (capturePhoto e3
                      (clearInterval (nextTimer s)
                         (setCountdown (Some 1) (startCountdown s))))).
  { unfold timerTick, startCountdown; simpl. now rewrite Nat.eqb_refl. }
  rewrite E1, E2, E3.
  destruct (capturePhoto_same_view e3 s
              (clearInterval (nextTimer s) (setCountdown (Some 1) (startCountdown s))))
    as (Hp & Hi & Htm & _); try reflexivity.
  assert (Hclr : timers (clearInterval (nextTimer s)
                           (setCountdown (Some 1) (startCountdown s))) = []).
  { simpl. rewrite Nat.eqb_refl, Ht. reflexivity. }
  split; [intros u; split; reflexivity|].
  split.
  { intros u Hu. unfold handle, takePhotoDisabled.
    destruct (currentScreen u); auto. destruct (countdown u); [reflexivity|congruence]. }
  split; [repeat split; reflexivity|].
  split; [repeat split; reflexivity|].
  split; [simpl; rewrite Ht; repeat split; reflexivity|].
  split; [exact Hp|]. split; [exact Hi|].
  split.
  { intros Hr He. simpl. rewrite Hp. unfold capturePhoto. rewrite Hr, He. reflexivity. }
  split; [reflexivity|].
  split; [simpl; rewrite Htm; exact Hclr|].
  intros e. unfold timerTick at 1. simpl. rewrite Htm, Hclr. reflexivity.
Qed.

Lemma countdown_cycle_captures_once_witness :
  let s4 := timerTick 0 sampleEnv
              (timerTick 0 sampleEnv (timerTick 0 sampleEnv (startCountdown cameraIdle))) in
  List.length (capturedPhotos s4) = 1%nat /\ countdown s4 = None /\ timers s4 = [].
Proof.
  pose proof (countdown_cycle_captures_once cameraIdle sampleEnv sampleEnv sampleEnv
                eq_refl eq_refl) as H.
  cbv zeta in H.
  destruct H as (_ & _ & _ & _ & _ & _ & _ & Hp & Hc & Ht & _).
  cbv zeta. split; [|split; [exact Hc|exact Ht]].
  change (nextTimer cameraIdle) with 0%nat in Hp.
  rewrite (Hp eq_refl eq_refl). reflexivity.
Defined.

(** * Properties of the placement geometry *)

Local Open Scope Q_scope.


(** C5 (counterexample). For the collage template's own three photos
    ([n = 2]) at spacing 4 on the 1600x1600 canvas, the photos at indices 1
    and 2 are 788 high: two rows fill the right half, not [n - 1 = 1]. *)
Lemma collage_rows_not_n_minus_1 :
  let r := placement (Some Collage) (mkStyle 2 4 0) 1600 1600 in
  (rh (r 1%nat) == 788 /\ ry (r 1%nat) == 8 /\
   rh (r 2%nat) == 788 /\ ry (r 2%nat) == 804) /\
  ~ rowsFill 1 (mkStyle 2 4 0) 1600 (rh (r 1%nat)) /\
  ~ collageAsSpecified 2 (mkStyle 2 4 0) 1600 1600.
Proof.
  cbv zeta. split; [repeat split; reflexivity|]. split.
  - intros H. vm_compute in H. discriminate.
  - intros [_ H]. destruct (H 1%nat ltac:(lia)) as (_ & _ & Hrows & _).
    vm_compute in Hrows. discriminate.
Qed.

(** C5 (amended). For the collage template, the photo at index 0 takes the
    left half of the canvas at full height; every photo at an index [i >= 1]
    takes the right half, in a row whose height is fixed at
    [(canvasHeight - 6 * spacing) / 2] (two equal rows fill the column,
    however many photos there are), at the vertical offset of row [i - 1];
    the rectangle depends on the index only. *)
Theorem collage_placement (st : Style) (cw ch : Q) (i : nat) :
  (1 <= i)%nat ->
  let s := spacing st in
  let l := placement (Some Collage) st cw ch 0 in
  let r := placement (Some Collage) st cw ch i in
  (rx l == 2 * s /\ ry l == 2 * s /\ rw l == cw / 2 - 2 * s /\ rh l == ch - 4 * s) /\
  rx r == cw / 2 + s /\ rw r == cw / 2 - 2 * s /\
  rh r == (ch - 6 * s) / 2 /\
  rowsFill 2 st ch (rh r) /\
  ry r == 2 * s + (rh r + 2 * s) * (num i - 1).
Proof.
  intros Hi. cbv zeta. unfold placement.
  destruct i as [|i]; [lia|]. cbn [Nat.eqb rx ry rw rh].
  unfold rowsFill. change (num 2) with 2.
  repeat split; try ring; try field.
Qed.

Lemma collage_placement_witness :
  rh (placement (Some Collage) (mkStyle 2 4 0) 1600 1600 2) == 788 /\
  ry (placement (Some Collage) (mkStyle 2 4 0) 1600 1600 2) == 804.
Proof.
  pose proof (collage_placement (mkStyle 2 4 0) 1600 1600 2 ltac:(lia)) as H.
  cbv zeta in H. destruct H as (_ & _ & _ & Hh & _ & Hy).
  split.
  - rewrite Hh. reflexivity.
  - rewrite Hy, Hh. reflexivity.
Defined.

(** The drawing step of a load handler, on any canvas: with a positive
    border width a black rectangle, inflated by [2 * b] on each side, is
    filled just before the photo is drawn; with none, the photo alone. *)
Lemma drawPhoto_inflates_border (t : Template) (st : Style) (i : nat)
        (photo : CapturedPhoto) (c : Surface) :
  let b := borderWidth st in
  let r := placement (Some t) st (inject_Z (width c)) (inject_Z (height c)) i in
  (0 < b ->
   exists br,
     ops (drawPhoto (Some t) st i photo c)
       = ops c ++ [FillRect (Color "#000000") br; DrawImage (dataUrl photo) r] /\
     rw br == rw r + 4 * b /\ rh br == rh r + 4 * b /\
     rx br == rx r - 2 * b /\ ry br == ry r - 2 * b) /\
  (b == 0 ->
   ops (drawPhoto (Some t) st i photo c) = ops c ++ [DrawImage (dataUrl photo) r]).
Proof.
  cbv zeta. unfold drawPhoto. split.
  - intros Hb. exists (borderRect st (placement (Some t) st (inject_Z (width c))
                                              (inject_Z (height c)) i)).
    destruct (Qlt_le_dec 0 (borderWidth st)) as [_|Hle]; [|lra].
    split.
    + simpl. rewrite <- app_assoc. reflexivity.
    + unfold borderRect; simpl. repeat split; ring.
  - intros Hb.
    destruct (Qlt_le_dec 0 (borderWidth st)) as [Hlt|_]; [lra|]. reflexivity.
Qed.

(** C7. For the strip template, every index [i] and every spacing [s], the
    placement rectangle on the 1600x2400 canvas has width [1600 - 4 * s],
    height [(2400 - 8 * s) / 3], [x = 2 * s] and
    [y = 2 * s + (height + 2 * s) * i]; with spacing 4 each rectangle is
    [(2400 - 32) / 3] high, and composing three photos with no border draws
    exactly these three rectangles, in order, over the background. *)
Theorem strip_placement (st : Style) (i : nat) :
  let s := spacing st in
  let r := placement (Some Strip) st 1600 2400 i in
  (rw r == 1600 - 4 * s /\ rh r == (2400 - 8 * s) / 3 /\ rx r == 2 * s /\
   ry r == 2 * s + (rh r + 2 * s) * num i) /\
  (forall b k, rh (placement (Some Strip) (mkStyle b 4 k) 1600 2400 i) == (2400 - 32) / 3) /\
  (forall e p0 p1 p2 scr idx cd bg tm nt,
     canvasCtx e = true ->
     let app := mkApp scr (Some Strip) [p0; p1; p2] idx cd bg (mkStyle 0 4 0) tm nt in
     let rect := placement (Some Strip) (mkStyle 0 4 0) 1600 2400 in
     exists c,
       promise (runLoads [Loaded 0%nat; Loaded 1%nat; Loaded 2%nat]
                         (generateFinalImage e app)) = Fulfilled (JpegOf c 1) /\
       width c = 1600%Z /\ height c = 2400%Z /\
       ops c = ops (applyBackground e bg (setSmoothing true "high"
                                           (setSize 1600 2400 createCanvas)))
               ++ [DrawImage (dataUrl p0) (rect 0%nat);
                   DrawImage (dataUrl p1) (rect 1%nat);
                   DrawImage (dataUrl p2) (rect 2%nat)]).
Proof.
  cbv zeta. split; [|split].
  - unfold placement; cbn [rx ry rw rh]. repeat split; try ring; field.
  - intros b k. unfold placement; cbn [rx ry rw rh spacing]. reflexivity.
  - intros e p0 p1 p2 scr idx cd bg tm nt He.
    unfold generateFinalImage; cbn [selectedTemplate capturedPhotos]. rewrite He.
    cbn [negb Template_eqb selectedBackground templateStyle List.length indexed].
    set (c0 := applyBackground e bg (setSmoothing true "high" (setSize 1600 2400 createCanvas))).
    assert (Hw : width c0 = 1600%Z /\ height c0 = 2400%Z).
    { unfold c0, applyBackground.
      destruct (find _ backgrounds) as [b|]; [|split; reflexivity].
      destruct (String.eqb (bg_id b) "pattern"); [destruct (createPatternOk e)|];
        split; reflexivity. }
    destruct Hw as [Hw Hh]. clearbody c0.
    destruct c0 as [w h f se sq o]. cbn in Hw, Hh. subst w h.
    eexists. split; [|split; [|split]].
    + unfold runLoads, settle, onload, lookupImage, removeImage, drawPhoto. cbn.
      reflexivity.
    + reflexivity.
    + reflexivity.
    + cbn. rewrite <- !app_assoc. reflexivity.
Qed.

Lemma strip_placement_witness :
  exists c,
    promise (runLoads [Loaded 0%nat; Loaded 1%nat; Loaded 2%nat]
               (generateFinalImage (mkComposeEnv true true true)
                  (mkApp ScreenPreview (Some Strip)
                     [mkPhoto "1" "a" 1; mkPhoto "2" "b" 2; mkPhoto "3" "c" 3]
                     3 None "white" (mkStyle 0 4 0) [] 3)))
      = Fulfilled (JpegOf c 1) /\
    width c = 1600%Z /\ height c = 2400%Z /\ List.length (ops c) = 4%nat.
Proof.
  destruct (strip_placement (mkStyle 0 4 0) 0) as (_ & _ & H).
  destruct (H (mkComposeEnv true true true)
              (mkPhoto "1" "a" 1) (mkPhoto "2" "b" 2) (mkPhoto "3" "c" 3)
              ScreenPreview 3%Z None "white"%string [] 3%nat eq_refl)
    as (c & Hp & Hw & Hh & Hops).
  exists c. split; [exact Hp|]. split; [exact Hw|]. split; [exact Hh|].
  rewrite Hops. reflexivity.
Defined.

(** * Properties of a composition run *)

Local Open Scope nat_scope.

Section SurfaceFacts.

Lemma applyBackground_size e b c :
  width (applyBackground e b c) = width c /\
  height (applyBackground e b c) = height c.
Proof.
  unfold applyBackground.
  destruct (find _ backgrounds) as [bg|]; [|split; reflexivity].
  destruct (String.eqb (bg_id bg) "pattern"); [destruct (createPatternOk e)|];
    split; reflexivity.
Qed.

Lemma drawPhoto_size t st i p c :
  width (drawPhoto t st i p c) = width c /\
  height (drawPhoto t st i p c) = height c.
Proof.
  unfold drawPhoto. destruct (Qlt_le_dec 0 (borderWidth st)); split; reflexivity.
Qed.

Lemma drawPhoto_ops t st i p c :
  ops (drawPhoto t st i p c) = (ops c ++ photoOps t st (width c) (height c) i p)%list.
Proof.
  unfold drawPhoto, photoOps.
  destruct (Qlt_le_dec 0 (borderWidth st)); simpl.
  - rewrite <- app_assoc. reflexivity.
  - reflexivity.
Qed.

Lemma drawPhoto_draws t st i p c :
  In (DrawImage (dataUrl p)
        (placement t st (inject_Z (width c)) (inject_Z (height c)) i))
     (ops (drawPhoto t st i p c)).
Proof.
  rewrite drawPhoto_ops. apply in_or_app. right.
  unfold photoOps. apply in_or_app. right. left. reflexivity.
Qed.

Lemma lookupImage_In i l p :
  lookupImage i l = Some p -> In (i, p) l.
Proof.
  unfold lookupImage. destruct (find _ l) as [[j q]|] eqn:Hf; simpl; [|discriminate].
  intros [= <-]. apply find_some in Hf as [Hin Heq]. simpl in Heq.
  apply Nat.eqb_eq in Heq. now subst j.
Qed.

Lemma removeImage_In i l j q :
  In (j, q) (removeImage i l) <-> In (j, q) l /\ j <> i.
Proof.
  unfold removeImage. rewrite filter_In. simpl.
  rewrite negb_true_iff, Nat.eqb_neq. tauto.
Qed.

Lemma lookupImage_removeImage i j l :
  j <> i -> lookupImage j (removeImage i l) = lookupImage j l.
Proof.
  intros Hne. unfold lookupImage, removeImage.
  induction l as [|[k q] l IH]; simpl; [reflexivity|].
  destruct (Nat.eqb k i) eqn:Hki; simpl.
  - apply Nat.eqb_eq in Hki. subst k.
    destruct (Nat.eqb i j) eqn:Hij; [apply Nat.eqb_eq in Hij; congruence|exact IH].
  - destruct (Nat.eqb k j); [reflexivity|exact IH].
Qed.

Lemma indexed_In {A} (l : list A) from i a :
  In (i, a) (indexed from l) <-> from <= i /\ nth_error l (i - from) = Some a.
Proof.
  revert from. induction l as [|x l IH]; intros from; simpl.
  - split; [tauto|]. intros [_ H]. destruct (i - from); discriminate.
  - rewrite IH. split.
    + intros [[= <- <-]|[Hle Hn]].
      * split; [lia|]. now rewrite Nat.sub_diag.
      * split; [lia|]. replace (i - from) with (S (i - S from)) by lia. exact Hn.
    + intros [Hle Hn]. destruct (i - from) as [|k] eqn:Hk.
      * left. simpl in Hn. injection Hn as <-. f_equal. lia.
      * right. split; [lia|]. simpl in Hn. replace (i - S from) with k by lia. exact Hn.
Qed.

Lemma lookupImage_indexed (l : list CapturedPhoto) from i :
  from <= i -> lookupImage i (indexed from l) = nth_error l (i - from).
Proof.
  revert from. induction l as [|x l IH]; intros from Hle.
  - simpl. destruct (i - from); reflexivity.
  - unfold lookupImage in *. simpl. destruct (Nat.eqb from i) eqn:Hfi.
    + apply Nat.eqb_eq in Hfi. subst. now rewrite Nat.sub_diag.
    + apply Nat.eqb_neq in Hfi. rewrite IH by lia.
      replace (i - from) with (S (i - S from)) by lia. reflexivity.
Qed.

Lemma distinct_indices_bounded (l : list nat) n :
  NoDup l -> (forall i, In i l -> i < n) -> List.length l <= n.
Proof.
  intros Hnd Hlt.
  assert (Hincl : incl l (seq 0 n)).
  { intros i Hi. apply in_seq. specialize (Hlt i Hi). lia. }
  apply (NoDup_incl_length Hnd) in Hincl. now rewrite length_seq in Hincl.
Qed.

Lemma distinct_indices_full (l : list nat) n i :
  NoDup l -> (forall j, In j l -> j < n) -> List.length l = n -> i < n -> In i l.
Proof.
  intros Hnd Hlt Hlen Hi.
  assert (Hincl : incl l (seq 0 n)).
  { intros j Hj. apply in_seq. specialize (Hlt j Hj). lia. }
  apply (NoDup_length_incl Hnd) in Hincl.
  - apply Hincl, in_seq. lia.
  - rewrite length_seq. lia.
Qed.

End SurfaceFacts.

Section ComposeRun.

Variable e : ComposeEnv.
Variable s : AppState.
Variable t : Template.
Hypothesis Htemplate : selectedTemplate s = Some t.
Hypothesis Hphotos : capturedPhotos s <> [].
Hypothesis Hctx : canvasCtx e = true.

Lemma generateFinalImage_started :
  generateFinalImage e s =
  mkCompose Pending (Some (preparedCanvas e s t)) 0 (Z.of_nat (List.length (capturedPhotos s))) (Some t) (templateStyle s) (indexed 0 (capturedPhotos s)).
Proof using Htemplate Hphotos Hctx.
  unfold generateFinalImage. rewrite Htemplate.
  destruct (capturedPhotos s) as [|p l] eqn:Hp; [congruence|].
  rewrite Hctx. simpl negb. cbv iota.
  reflexivity.
Qed.

Lemma preparedCanvas_size :
  width (preparedCanvas e s t) = 1600%Z /\
  height (preparedCanvas e s t) = outputHeight t.
Proof. unfold preparedCanvas. destruct (applyBackground_size e (selectedBackground s)
  (setSmoothing true "high" (setSize 1600 (outputHeight t) createCanvas))) as [-> ->].
  split; reflexivity.
Qed.

Lemma running_start : running e s t [] (generateFinalImage e s).
Proof using Htemplate Hphotos Hctx.
  rewrite generateFinalImage_started. unfold running; simpl.
  do 3 (split; [reflexivity|]). exists (preparedCanvas e s t), [].
  destruct preparedCanvas_size as [Hw Hh].
  split; [reflexivity|]. split; [exact Hw|]. split; [exact Hh|].
  split; [constructor|]. split; [reflexivity|].
  split; [intros i []|]. split.
  - intros i p Hin. apply indexed_In in Hin as [_ Hn].
    rewrite Nat.sub_0_r in Hn. split; [exact Hn|intros []].
  - simpl. destruct (capturedPhotos s); [contradiction|reflexivity].
Qed.

Lemma running_settle evs g ev :
  running e s t evs g -> running e s t (evs ++ [ev]) (settle ev g).
Proof.
  intros (Ht & Hst & Htot & c & done & Hc & Hw & Hh & Hnd & Hcount & Hdone & Himg & Hpr).
  assert (Hkeep : forall i, In i done ->
            In (Loaded i) (evs ++ [ev]) /\
            exists p, nth_error (capturedPhotos s) i = Some p /\
                 In (DrawImage (dataUrl p)
                       (placement (Some t) (templateStyle s) 1600 (inject_Z (outputHeight t)) i))
                    (ops c)).
  { intros i Hi. destruct (Hdone i Hi) as [Hin Hp]. split; [|exact Hp].
    apply in_or_app. now left. }
  destruct ev as [i|i]; simpl.
  - (* a load handler runs *)
    unfold onload. rewrite Hc.
    destruct (lookupImage i (images g)) as [photo|] eqn:Hl.
    2:{ unfold running. repeat split; auto. exists c, done. repeat split; auto;
        try apply Hkeep; auto; try (now apply (Himg _ _ H)). }
    apply lookupImage_In in Hl. destruct (Himg _ _ Hl) as [Hnth Hnot].
    assert (Hlt : forall j, In j (i :: done) -> j < (List.length (capturedPhotos s))).
    { intros j [<-|Hj].
      - apply nth_error_Some. congruence.
      - destruct (Hdone j Hj) as [_ (p & Hp & _)]. apply nth_error_Some. congruence. }
    assert (Hnd' : NoDup (i :: done)) by (constructor; assumption).
    pose proof (distinct_indices_bounded _ _ Hnd' Hlt) as Hbound. simpl in Hbound.
    assert (Hpend : promise g = Pending).
    { rewrite Hpr. destruct (Nat.eqb (List.length done) (List.length (capturedPhotos s))) eqn:E; [|reflexivity].
      apply Nat.eqb_eq in E. lia. }
    unfold running; simpl. rewrite Ht, Hst.
    repeat split; auto.
    exists (drawPhoto (Some t) (templateStyle s) i photo c), (i :: done).
    destruct (drawPhoto_size (Some t) (templateStyle s) i photo c) as [Hw' Hh'].
    split; [reflexivity|]. split; [congruence|]. split; [congruence|].
    split; [exact Hnd'|].
    split; [rewrite Hcount; simpl List.length; lia|].
    split; [|split].
    + intros j [<-|Hj].
      * split; [apply in_or_app; right; now left|].
        exists photo. split; [exact Hnth|].
        pose proof (drawPhoto_draws (Some t) (templateStyle s) i photo c) as Hd.
        rewrite Hw, Hh in Hd. exact Hd.
      * destruct (Hkeep j Hj) as [Hin (p & Hp & Hd)]. split; [exact Hin|].
        exists p. split; [exact Hp|]. rewrite drawPhoto_ops.
        apply in_or_app. now left.
    + intros j q Hj. apply removeImage_In in Hj as [Hj Hne].
      destruct (Himg _ _ Hj) as [Hq Hnj]. split; [exact Hq|].
      intros [Heq|Hin]; [congruence|contradiction].
    + rewrite Hpend, Htot, Hcount. simpl List.length.
      destruct (Nat.eqb (S (List.length done)) (List.length (capturedPhotos s))) eqn:E.
      * apply Nat.eqb_eq in E.
        replace (Z.of_nat (List.length done) + 1 =? Z.of_nat (List.length (capturedPhotos s)))%Z with true
          by (symmetry; apply Z.eqb_eq; lia).
        reflexivity.
      * apply Nat.eqb_neq in E.
        replace (Z.of_nat (List.length done) + 1 =? Z.of_nat (List.length (capturedPhotos s)))%Z with false
          by (symmetry; apply Z.eqb_neq; lia).
        reflexivity.
  - (* a decode fails: no handler *)
    unfold running; simpl. repeat split; auto. exists c, done.
    repeat split; auto; try apply Hkeep; auto;
      apply removeImage_In in H as [H _]; now apply (Himg _ _ H).
Qed.

Lemma running_runLoads evs :
  running e s t evs (runLoads evs (generateFinalImage e s)).
Proof using Htemplate Hphotos Hctx.
  induction evs as [|ev evs IH] using rev_ind.
  - exact running_start.
  - unfold runLoads. rewrite fold_left_app. simpl.
    now apply running_settle.
Qed.

End ComposeRun.

Section DistinctLoads.

Variable t : option Template.
Variable st : Style.
Variable P : list CapturedPhoto.

Lemma runLoads_distinct l : forall g c,
  canvas g = Some c -> c_template g = t -> c_style g = st ->
  NoDup l ->
  (forall i, In i l ->
     exists p, nth_error P i = Some p /\ lookupImage i (images g) = Some p) ->
  promise g = Pending ->
  (loadedCount g < totalImages g)%Z ->
  (loadedCount g + Z.of_nat (List.length l) <= totalImages g)%Z ->
  let g' := runLoads (map Loaded l) g in
  canvas g' = Some (loadAll t st P l c) /\
  loadedCount g' = (loadedCount g + Z.of_nat (List.length l))%Z /\
  totalImages g' = totalImages g /\
  promise g' = if (loadedCount g + Z.of_nat (List.length l) =? totalImages g)%Z
               then Fulfilled (JpegOf (loadAll t st P l c) 1) else Pending.
Proof.
  induction l as [|i l IH]; intros g c Hc Ht Hst Hnd Himg Hp Hlt Hle; cbv zeta.
  - simpl. rewrite Z.add_0_r. repeat split; auto.
    replace (loadedCount g =? totalImages g)%Z with false
      by (symmetry; apply Z.eqb_neq; lia).
    exact Hp.
  - destruct (Himg i (or_introl eq_refl)) as (p & Hnth & Hlook).
    apply NoDup_cons_iff in Hnd as [Hnotin Hnd'].
    simpl map. unfold runLoads. simpl fold_left. fold (runLoads (map Loaded l)).
    set (c' := drawPhoto t st i p c).
    assert (Hg1 : onload i g =
                  mkCompose (if (loadedCount g + 1 =? totalImages g)%Z
                             then Fulfilled (JpegOf c' 1) else Pending)
                            (Some c') (loadedCount g + 1)%Z (totalImages g)
                            t st (removeImage i (images g))).
    { unfold onload. rewrite Hlook, Hc, Hp, Ht, Hst. reflexivity. }
    rewrite Hg1. simpl List.length in *. simpl loadAll. rewrite Hnth.
    fold (loadAll t st P l (drawPhoto t st i p c)). fold c'.
    destruct (loadedCount g + 1 =? totalImages g)%Z eqn:E.
    + apply Z.eqb_eq in E. destruct l as [|j l]; [|simpl List.length in Hle; lia].
      simpl. repeat split.
      replace (loadedCount g + 1 =? totalImages g)%Z with true
        by (symmetry; apply Z.eqb_eq; lia).
      reflexivity.
    + apply Z.eqb_neq in E.
      destruct (IH (mkCompose Pending (Some c') (loadedCount g + 1)%Z (totalImages g)
                              t st (removeImage i (images g))) c')
        as (H1 & H2 & H3 & H4); simpl; auto.
      * intros j Hj. destruct (Himg j (or_intror Hj)) as (q & Hq & Hlq).
        exists q. split; [exact Hq|].
        rewrite lookupImage_removeImage; [exact Hlq|]. intros ->. contradiction.
      * lia.
      * lia.
      * simpl in H2, H3, H4. unfold runLoads in H1, H2, H3, H4.
        split; [exact H1|]. split; [rewrite H2; lia|]. split; [exact H3|].
        rewrite H4.
        replace (loadedCount g + 1 + Z.of_nat (List.length l))%Z
          with (loadedCount g + Z.pos (Pos.of_succ_nat (List.length l)))%Z by lia.
        reflexivity.
Qed.

Lemma loadAll_size l : forall c,
  width (loadAll t st P l c) = width c /\ height (loadAll t st P l c) = height c.
Proof.
  induction l as [|i l IH]; intros c; simpl; [split; reflexivity|].
  destruct (nth_error P i) as [p|]; [|apply IH].
  destruct (IH (drawPhoto t st i p c)) as [-> ->]. apply drawPhoto_size.
Qed.

Lemma loadAll_ops l : forall c,
  ops (loadAll t st P l c) = (ops c ++ loadOps t st P (width c) (height c) l)%list.
Proof.
  induction l as [|i l IH]; intros c; simpl.
  - now rewrite app_nil_r.
  - destruct (nth_error P i) as [p|]; [|apply IH].
    rewrite IH, drawPhoto_ops. destruct (drawPhoto_size t st i p c) as [-> ->].
    now rewrite app_assoc.
Qed.

End DistinctLoads.

Section LoadsFromStart.

Variable e : ComposeEnv.
Variable s : AppState.
Variable t : Template.
Hypothesis Htemplate : selectedTemplate s = Some t.
Hypothesis Hphotos : capturedPhotos s <> [].
Hypothesis Hctx : canvasCtx e = true.

(** After the load handlers of distinct photos of the sequence, and no
    other event, the promise is fulfilled exactly if all of them ran. *)
Lemma runLoads_from_start l :
  NoDup l -> (forall i, In i l -> i < List.length (capturedPhotos s)) ->
  promise (runLoads (map Loaded l) (generateFinalImage e s)) =
  if Nat.eqb (List.length l) (List.length (capturedPhotos s))
  then Fulfilled (JpegOf (loadAll (Some t) (templateStyle s) (capturedPhotos s) l
                                  (preparedCanvas e s t)) 1)
  else Pending.
Proof using Htemplate Hphotos Hctx.
  intros Hnd Hin.
  rewrite (generateFinalImage_started e s t Htemplate Hphotos Hctx).
  pose proof (distinct_indices_bounded l _ Hnd Hin) as Hlen.
  edestruct (runLoads_distinct (Some t) (templateStyle s) (capturedPhotos s) l)
    as (_ & _ & _ & H4); [..|rewrite H4]; simpl; try reflexivity; auto.
  - intros i Hi. apply Hin in Hi.
    destruct (nth_error (capturedPhotos s) i) as [p|] eqn:Hn.
    + exists p. split; [reflexivity|].
      rewrite lookupImage_indexed by lia. now rewrite Nat.sub_0_r.
    + apply nth_error_None in Hn. lia.
  - destruct (capturedPhotos s); [congruence|simpl; lia].
  - lia.
  - destruct (Nat.eqb _ _) eqn:E.
    + apply Nat.eqb_eq in E. rewrite E, Z.eqb_refl. reflexivity.
    + apply Nat.eqb_neq in E.
      replace (_ =? _)%Z with false; [reflexivity|].
      symmetry. apply Z.eqb_neq. lia.
Qed.

End LoadsFromStart.

Section Guards.

Lemma degenerate_or_started e s :
  degenerate e s \/
  exists t, selectedTemplate s = Some t /\ capturedPhotos s <> [] /\ canvasCtx e = true.
Proof.
  unfold degenerate.
  destruct (selectedTemplate s) as [t|]; [|now left; left].
  destruct (capturedPhotos s) as [|p l]; [now left; right; left|].
  destruct (canvasCtx e); [|now left; right; right].
  right. exists t. repeat split; congruence.
Qed.

Lemma generateFinalImage_degenerate e s :
  degenerate e s ->
  promise (generateFinalImage e s) = Fulfilled EmptyUrl /\
  images (generateFinalImage e s) = [] /\
  (forall c, canvas (generateFinalImage e s) = Some c -> ops c = []).
Proof.
  unfold degenerate, generateFinalImage.
  destruct (selectedTemplate s) as [t|]; [|intros _; repeat split; discriminate].
  destruct (capturedPhotos s) as [|p l]; [intros _; repeat split; discriminate|].
  destruct (canvasCtx e); simpl.
  - intros [H|[H|H]]; discriminate.
  - intros _. repeat split. intros c [= <-]. reflexivity.
Qed.

Lemma settle_no_images ev g :
  images g = [] ->
  promise (settle ev g) = promise g /\ canvas (settle ev g) = canvas g /\
  images (settle ev g) = [].
Proof.
  intros H. destruct ev as [i|i]; simpl.
  - unfold onload, lookupImage. rewrite H. simpl. auto.
  - rewrite H. auto.
Qed.

Lemma runLoads_no_images evs : forall g,
  images g = [] ->
  promise (runLoads evs g) = promise g /\ canvas (runLoads evs g) = canvas g.
Proof.
  induction evs as [|ev evs IH]; intros g H; simpl; [auto|].
  destruct (settle_no_images ev g H) as (Hp & Hc & Hi).
  destruct (IH (settle ev g) Hi) as [-> ->]. auto.
Qed.

End Guards.

(** C4 (counterexample). With a template selected and one photo held, but no
    2D context for the output canvas, the promise is fulfilled (with the
    empty result) before any load handler has run. *)
Lemma resolves_at_once_without_context :
  let e := mkComposeEnv false true true in
  let s := mkApp ScreenPreview (Some Strip) [mkPhoto "1" "data:," 1]
                 1%Z None "white" (mkStyle 2 4 0) [] 1 in
  selectedTemplate s = Some Strip /\ capturedPhotos s <> [] /\
  ~ resolvesOnlyAfterAllLoads e s.
Proof.
  cbv zeta. split; [reflexivity|]. split; [discriminate|].
  intros H. specialize (H [] EmptyUrl eq_refl 0 ltac:(simpl; lia)).
  destruct H.
Qed.

(** C4 (amended). For a non-empty photo sequence of length [N], a selected
    template and an available 2D context, the promise is pending when
    [generateFinalImage] returns; whatever load and failure events follow, it
    is fulfilled only once the load handler of every one of the [N] photos
    has run, and the image it is fulfilled with is the canvas on which all
    [N] photos have been drawn at their placement rectangles. When the [N]
    handlers run in any order, the promise is pending after each of the
    first [N - 1] and fulfilled by the [N]th. *)
Theorem composite_resolves_on_last_load (e : ComposeEnv) (s : AppState) (t : Template) :
  selectedTemplate s = Some t ->
  capturedPhotos s <> [] ->
  canvasCtx e = true ->
  let N := List.length (capturedPhotos s) in
  let g0 := generateFinalImage e s in
  promise g0 = Pending /\
  (forall evs v,
     promise (runLoads evs g0) = Fulfilled v ->
     (forall i, i < N -> In (Loaded i) evs) /\
     exists c, v = JpegOf c 1 /\ canvas (runLoads evs g0) = Some c /\
       forall i p, nth_error (capturedPhotos s) i = Some p ->
         In (DrawImage (dataUrl p)
               (placement (Some t) (templateStyle s)
                  (inject_Z (width c)) (inject_Z (height c)) i))
            (ops c)) /\
  (forall order,
     Permutation order (seq 0 N) ->
     (forall k, k < N ->
        promise (runLoads (map Loaded (firstn k order)) g0) = Pending) /\
     exists c, promise (runLoads (map Loaded order) g0) = Fulfilled (JpegOf c 1)).
Proof.
  intros Ht Hp Hc. cbv zeta.
  pose proof (generateFinalImage_started e s t Ht Hp Hc) as Hstart.
  split; [rewrite Hstart; reflexivity|]. split.
  - intros evs v Hv.
    destruct (running_runLoads e s t Ht Hp Hc evs)
      as (_ & _ & _ & c & done & Hcv & Hw & Hh & Hnd & _ & Hdone & _ & Hpr).
    rewrite Hpr in Hv.
    destruct (Nat.eqb (List.length done) (List.length (capturedPhotos s))) eqn:E;
      [|discriminate].
    apply Nat.eqb_eq in E. injection Hv as <-.
    assert (Hlt : forall j, In j done -> j < List.length (capturedPhotos s)).
    { intros j Hj. destruct (Hdone j Hj) as [_ (p & Hq & _)].
      apply nth_error_Some. congruence. }
    assert (Hall : forall i, i < List.length (capturedPhotos s) -> In i done).
    { intros i Hi. now apply (distinct_indices_full done _ i Hnd Hlt E). }
    split.
    + intros i Hi. now apply Hdone, Hall.
    + exists c. split; [reflexivity|]. split; [exact Hcv|].
      intros i p Hi.
      assert (Hin : In i done).
      { apply Hall, nth_error_Some. congruence. }
      destruct (Hdone i Hin) as [_ (q & Hq & Hd)].
      rewrite Hi in Hq. injection Hq as <-. rewrite Hw, Hh. exact Hd.
  - intros order Hperm.
    assert (Hnd : NoDup order).
    { apply (Permutation_NoDup (Permutation_sym Hperm)), seq_NoDup. }
    assert (Hin : forall i, In i order -> i < List.length (capturedPhotos s)).
    { intros i Hi. apply (Permutation_in _ Hperm) in Hi. apply in_seq in Hi. lia. }
    assert (Hlen : List.length order = List.length (capturedPhotos s)).
    { rewrite (Permutation_length Hperm). apply length_seq. }
    split.
    + intros k Hk.
      rewrite (runLoads_from_start e s t Ht Hp Hc).
      * replace (Nat.eqb _ _) with false; [reflexivity|].
        symmetry. apply Nat.eqb_neq. rewrite length_firstn. lia.
      * clear -Hnd. rewrite <- (firstn_skipn k order) in Hnd.
        now apply NoDup_app_remove_r in Hnd.
      * intros i Hi. apply Hin. rewrite <- (firstn_skipn k order).
        apply in_or_app. now left.
    + eexists. rewrite (runLoads_from_start e s t Ht Hp Hc _ Hnd Hin).
      rewrite Hlen, Nat.eqb_refl. reflexivity.
Qed.

Lemma composite_resolves_on_last_load_witness :
  let s := mkApp ScreenPreview (Some Grid)
                 [mkPhoto "1" "a" 1; mkPhoto "2" "b" 2] 2%Z None "gray"
                 (mkStyle 2 4 0) [] 2 in
  let g0 := generateFinalImage (mkComposeEnv true true true) s in
  promise (runLoads (map Loaded (firstn 1 [1; 0])) g0) = Pending /\
  exists c, promise (runLoads (map Loaded [1; 0]) g0) = Fulfilled (JpegOf c 1).
Proof.
  cbv zeta.
  destruct (composite_resolves_on_last_load (mkComposeEnv true true true)
              (mkApp ScreenPreview (Some Grid)
                 [mkPhoto "1" "a" 1; mkPhoto "2" "b" 2] 2%Z None "gray"
                 (mkStyle 2 4 0) [] 2) Grid eq_refl ltac:(discriminate) eq_refl)
    as (_ & _ & H).
  destruct (H [1; 0]) as [Hk Hc].
  - simpl. apply perm_swap.
  - split; [apply (Hk 1); simpl; lia|exact Hc].
Defined.

(** C8. [generateFinalImage] gives the empty result exactly when no
    template is selected, the photo sequence is empty, or the output canvas
    has no 2D context. In each of these cases the promise is fulfilled with
    the empty result as soon as the function returns, nothing has been drawn,
    no image load is outstanding and later events change nothing. In every
    other case the promise starts pending and can only be fulfilled with an
    encoded canvas. The promise is never rejected. *)
Theorem empty_result_cases (e : ComposeEnv) (s : AppState) :
  let g := generateFinalImage e s in
  (promise g = Fulfilled EmptyUrl <-> degenerate e s) /\
  (degenerate e s ->
   images g = [] /\
   (forall c, canvas g = Some c -> ops c = []) /\
   forall evs, promise (runLoads evs g) = Fulfilled EmptyUrl /\
               canvas (runLoads evs g) = canvas g) /\
  (~ degenerate e s ->
   promise g = Pending /\
   forall evs v, promise (runLoads evs g) = Fulfilled v -> v <> EmptyUrl) /\
  (forall evs, promise (runLoads evs g) <> Rejected).
Proof.
  cbv zeta.
  destruct (degenerate_or_started e s) as [Hd|(t & Ht & Hp & Hc)].
  - destruct (generateFinalImage_degenerate e s Hd) as (Hpr & Himg & Hops).
    split; [tauto|]. split; [|split; [tauto|]].
    + intros _. split; [exact Himg|]. split; [exact Hops|].
      intros evs. destruct (runLoads_no_images evs _ Himg) as [-> ->]. auto.
    + intros evs. destruct (runLoads_no_images evs _ Himg) as [-> _].
      rewrite Hpr. discriminate.
  - assert (Hnd : ~ degenerate e s).
    { unfold degenerate. intros [H|[H|H]]; congruence. }
    assert (Hrun : forall evs,
              exists c, promise (runLoads evs (generateFinalImage e s)) = Pending \/
                        promise (runLoads evs (generateFinalImage e s))
                          = Fulfilled (JpegOf c 1)).
    { intros evs.
      destruct (running_runLoads e s t Ht Hp Hc evs)
        as (_ & _ & _ & c & done & _ & _ & _ & _ & _ & _ & _ & Hpr).
      exists c. rewrite Hpr. destruct (Nat.eqb _ _); auto. }
    split; [|split; [tauto|split]].
    + split; [|tauto]. rewrite (generateFinalImage_started e s t Ht Hp Hc). discriminate.
    + intros _. split; [rewrite (generateFinalImage_started e s t Ht Hp Hc); reflexivity|].
      intros evs v Hv. destruct (Hrun evs) as (c & [H|H]); congruence.
    + intros evs. destruct (Hrun evs) as (c & [H|H]); congruence.
Qed.

Lemma empty_result_cases_witness :
  promise (generateFinalImage (mkComposeEnv true true true) initialState)
    = Fulfilled EmptyUrl /\
  images (generateFinalImage (mkComposeEnv true true true) initialState) = [].
Proof.
  destruct (empty_result_cases (mkComposeEnv true true true) initialState)
    as (Hiff & Hdeg & _).
  cbv zeta in *.
  assert (Hd : degenerate (mkComposeEnv true true true) initialState)
    by (left; reflexivity).
  split; [apply Hiff, Hd|apply Hdeg, Hd].
Defined.

(** C9. Whatever the photo sequence, background and style: once
    [generateFinalImage] is past its early exits its canvas is 1600 wide and
    2400 high for the strip template, 1600 high for grid, collage and single;
    and every image the promise is ever fulfilled with is a canvas of exactly
    that size. *)
Theorem output_canvas_size (e : ComposeEnv) (s : AppState) :
  let h := match selectedTemplate s with Some Strip => 2400%Z | _ => 1600%Z end in
  (~ degenerate e s ->
   exists c, canvas (generateFinalImage e s) = Some c /\
             width c = 1600%Z /\ height c = h) /\
  (forall evs c q,
     promise (runLoads evs (generateFinalImage e s)) = Fulfilled (JpegOf c q) ->
     width c = 1600%Z /\ height c = h).
Proof.
  cbv zeta.
  destruct (degenerate_or_started e s) as [Hd|(t & Ht & Hp & Hc)].
  - split; [tauto|]. intros evs c q H.
    destruct (generateFinalImage_degenerate e s Hd) as (Hpr & Himg & _).
    destruct (runLoads_no_images evs _ Himg) as [Hsame _]. congruence.
  - assert (Hh : outputHeight t =
                 match selectedTemplate s with Some Strip => 2400%Z | _ => 1600%Z end).
    { rewrite Ht. destruct t; reflexivity. }
    split.
    + intros _. rewrite (generateFinalImage_started e s t Ht Hp Hc). simpl.
      exists (preparedCanvas e s t). destruct (preparedCanvas_size e s t) as [Hw Hht].
      split; [reflexivity|]. split; congruence.
    + intros evs c q H.
      destruct (running_runLoads e s t Ht Hp Hc evs)
        as (_ & _ & _ & c' & done & _ & Hw & Hht & _ & _ & _ & _ & Hpr).
      rewrite Hpr in H. destruct (Nat.eqb _ _); [|discriminate].
      injection H as <- _. split; congruence.
Qed.

Lemma output_canvas_size_witness :
  exists c,
    canvas (generateFinalImage (mkComposeEnv true true true)
              (mkApp ScreenPreview (Some Strip) [mkPhoto "1" "a" 1] 1%Z None "black"
                     (mkStyle 2 4 0) [] 1)) = Some c /\
    width c = 1600%Z /\ height c = 2400%Z.
Proof.
  destruct (output_canvas_size (mkComposeEnv true true true)
              (mkApp ScreenPreview (Some Strip) [mkPhoto "1" "a" 1] 1%Z None "black"
                     (mkStyle 2 4 0) [] 1)) as [H _].
  cbv zeta in H. apply H.
  unfold degenerate. simpl. intros [H0|[H0|H0]]; discriminate.
Defined.

(** C10. Once [generateFinalImage] has created the [Image] of the photo at
    index [i], if that image's load handler never runs -- the decode fails,
    or just never completes -- then whatever else happens (other images
    loading or failing, in any order and number) the promise stays pending:
    it is neither fulfilled, with an image or with the empty result, nor
    rejected. *)
Theorem failed_decode_never_settles (e : ComposeEnv) (s : AppState)
        (i : nat) (p : CapturedPhoto) (evs : list LoadEvent) :
  lookupImage i (images (generateFinalImage e s)) = Some p ->
  ~ In (Loaded i) evs ->
  promise (runLoads evs (generateFinalImage e s)) = Pending.
Proof.
  intros Hi Hnot.
  destruct (degenerate_or_started e s) as [Hd|(t & Ht & Hp & Hc)].
  - destruct (generateFinalImage_degenerate e s Hd) as (_ & Himg & _).
    rewrite Himg in Hi. discriminate.
  - destruct (running_runLoads e s t Ht Hp Hc evs)
      as (_ & _ & _ & c & done & _ & _ & _ & Hnd & _ & Hdone & _ & Hpr).
    rewrite Hpr. destruct (Nat.eqb _ _) eqn:E; [|reflexivity].
    apply Nat.eqb_eq in E. exfalso. apply Hnot.
    assert (Hlt : forall j, In j done -> j < List.length (capturedPhotos s)).
    { intros j Hj. destruct (Hdone j Hj) as [_ (q & Hq & _)].
      apply nth_error_Some. congruence. }
    apply Hdone, (distinct_indices_full done _ i Hnd Hlt E).
    rewrite (generateFinalImage_started e s t Ht Hp Hc) in Hi. simpl in Hi.
    apply lookupImage_In, indexed_In in Hi as [_ Hi].
    apply nth_error_Some. rewrite Nat.sub_0_r in Hi. congruence.
Qed.

Lemma failed_decode_never_settles_witness :
  promise (runLoads [Loaded 0; Failed 1; Loaded 2]
             (generateFinalImage (mkComposeEnv true true true)
                (mkApp ScreenPreview (Some Collage)
                   [mkPhoto "1" "a" 1; mkPhoto "2" "b" 2; mkPhoto "3" "c" 3]
                   3%Z None "white" (mkStyle 2 4 0) [] 3))) = Pending.
Proof.
  apply (failed_decode_never_settles _ _ 1 (mkPhoto "2" "b" 2)).
  - reflexivity.
  - simpl. intros [H|[H|[H|[]]]]; discriminate.
Defined.

(** * What the composite shows, and when it depends on the load order *)

Section Layers.

Variable t : option Template.
Variable st : Style.
Variable P : list CapturedPhoto.
Variables w h : Z.
Variables px py : Q.

Local Abbreviation hit := (inPhoto t st w h px py).
Local Abbreviation edge := (inBorder t st w h px py).
Local Abbreviation rect := (fun i : nat => placement t st (inject_Z w) (inject_Z h) i).

Lemma paint_photoOps i p below :
  fold_left (paintOver px py) (photoOps t st w h i p) below =
  if hit i then ImagePixel (dataUrl p) (rect i)
  else if bordered st && edge i then Filled (Color "#000000") else below.
Proof.
  unfold photoOps, bordered, inPhoto, inBorder.
  destruct (Qlt_le_dec 0 (borderWidth st)); simpl; unfold paintOver; simpl.
  - destruct (covers (placement t st (inject_Z w) (inject_Z h) i) px py); reflexivity.
  - destruct (covers (placement t st (inject_Z w) (inject_Z h) i) px py); reflexivity.
Qed.

Lemma apart_tail i l :
  apart t st w h px py (i :: l) -> apart t st w h px py l.
Proof. intros H a b Ha Hb. apply H; now right. Qed.

Lemma find_none_all {A} (f : A -> bool) l :
  (forall x, In x l -> f x = false) -> find f l = None.
Proof.
  induction l as [|a l IH]; intros H; simpl; [reflexivity|].
  rewrite (H a (or_introl eq_refl)). apply IH. intros x Hx. apply H. now right.
Qed.

Lemma existsb_false_all {A} (f : A -> bool) l :
  (forall x, In x l -> f x = false) -> existsb f l = false.
Proof.
  induction l as [|a l IH]; intros H; simpl; [reflexivity|].
  rewrite (H a (or_introl eq_refl)). apply IH. intros x Hx. apply H. now right.
Qed.

Lemma paint_loadOps l : forall below,
  NoDup l -> (forall i, In i l -> nth_error P i <> None) ->
  apart t st w h px py l ->
  fold_left (paintOver px py) (loadOps t st P w h l) below =
  layered t st P w h px py l below.
Proof.
  induction l as [|i l IH]; intros below Hnd Hsome Hap.
  - unfold layered. simpl. now rewrite andb_false_r.
  - apply NoDup_cons_iff in Hnd as [Hnotin Hnd'].
    unfold loadOps. simpl flat_map. fold (loadOps t st P w h l).
    destruct (nth_error P i) as [p|] eqn:Hp;
      [|exfalso; apply (Hsome i (or_introl eq_refl)); exact Hp].
    rewrite fold_left_app, paint_photoOps.
    rewrite IH; [|exact Hnd'|intros j Hj; apply Hsome; now right|exact (apart_tail _ _ Hap)].
    unfold layered. simpl find. simpl existsb.
    destruct (hit i) eqn:Hi.
    + assert (Hothers : forall j, In j l -> hit j = false /\ edge j = false).
      { intros j Hj. apply (Hap i j); simpl; auto. intros ->. contradiction. }
      rewrite find_none_all by (intros j Hj; apply Hothers, Hj).
      rewrite existsb_false_all by (intros j Hj; apply Hothers, Hj).
      rewrite andb_false_r, Hp. reflexivity.
    + destruct (find hit l); [reflexivity|].
      destruct (bordered st), (edge i), (existsb edge l); reflexivity.
Qed.

Lemma find_unique_Permutation (f : nat -> bool) l l' :
  Permutation l l' ->
  (forall i j, In i l -> In j l -> f i = true -> f j = true -> i = j) ->
  find f l = find f l'.
Proof.
  induction 1 as [|x l l' Hperm IH|x y l|l l' l'' H1 IH1 H2 IH2]; intros Huniq.
  - reflexivity.
  - simpl. destruct (f x); [reflexivity|].
    apply IH. intros i j Hi Hj. apply Huniq; now right.
  - simpl. destruct (f x) eqn:Hx, (f y) eqn:Hy; try reflexivity.
    f_equal. apply Huniq; simpl; auto.
  - rewrite IH1 by exact Huniq. apply IH2.
    intros i j Hi Hj.
    apply Huniq; [apply (Permutation_in _ (Permutation_sym H1) Hi)
                 |apply (Permutation_in _ (Permutation_sym H1) Hj)].
Qed.

Lemma existsb_Permutation (f : nat -> bool) l l' :
  Permutation l l' -> existsb f l = existsb f l'.
Proof.
  induction 1 as [|x l l' Hperm IH|x y l|l l' l'' H1 IH1 H2 IH2]; simpl.
  - reflexivity.
  - now rewrite IH.
  - destruct (f x), (f y); reflexivity.
  - congruence.
Qed.

Lemma layered_Permutation l l' below :
  Permutation l l' -> NoDup l -> apart t st w h px py l ->
  layered t st P w h px py l below = layered t st P w h px py l' below.
Proof.
  intros Hperm Hnd Hap. unfold layered.
  rewrite (find_unique_Permutation hit l l' Hperm).
  - now rewrite (existsb_Permutation edge l l' Hperm).
  - intros i j Hi Hj Hfi Hfj. destruct (Nat.eq_dec i j) as [|Hne]; [assumption|].
    destruct (Hap i j Hi Hj Hne Hfi) as [Hc _]. congruence.
Qed.

End Layers.

Section Clearance.

Local Open Scope Q_scope.

Lemma within_spec lo len p :
  0 <= len -> (within lo len p = true <-> lo <= p /\ p < lo + len).
Proof.
  intros Hlen. unfold within.
  destruct (Qlt_le_dec len 0) as [Hneg|_]; [lra|].
  rewrite andb_true_iff, negb_true_iff, Qle_bool_iff.
  split.
  - intros [H1 H2]. split; [exact H1|].
    apply Qnot_le_lt. intros H. apply Qle_bool_iff in H. congruence.
  - intros [H1 H2]. split; [exact H1|].
    destruct (Qle_bool (lo + len) p) eqn:E; [|reflexivity].
    apply Qle_bool_iff in E. lra.
Qed.

Lemma covers_spec r px py :
  0 <= rw r -> 0 <= rh r ->
  (covers r px py = true <->
   rx r <= px /\ px < rx r + rw r /\ ry r <= py /\ py < ry r + rh r).
Proof.
  intros Hw Hh. unfold covers.
  rewrite andb_true_iff, (within_spec _ _ _ Hw), (within_spec _ _ _ Hh). tauto.
Qed.

Lemma covers_false r px py :
  0 <= rw r -> 0 <= rh r ->
  ~ (rx r <= px /\ px < rx r + rw r /\ ry r <= py /\ py < ry r + rh r) ->
  covers r px py = false.
Proof.
  intros Hw Hh Hn. destruct (covers r px py) eqn:E; [|reflexivity].
  apply covers_spec in E; tauto.
Qed.

Ltac unfold_rects :=
  cbv beta iota zeta delta
      [placement borderRect rx ry rw rh spacing borderWidth num Nat.eqb
       outputHeight Template_eqb] in *;
  simpl Z.of_nat in *; unfold inject_Z in *;
  unfold Qdiv in *;
  change (/ 3) with (1 # 3) in *; change (/ 2) with (1 # 2) in *.

Ltac clear_of_each_other Hc :=
  apply covers_spec in Hc; [|(unfold_rects; lra) ..];
  split; (apply covers_false; [(unfold_rects; lra) ..|]);
  unfold_rects; lra.

Lemma photos_clear (t : Template) (st : Style) (px py : Q) (i j : nat) :
  0 <= borderWidth st -> 0 <= spacing st <= 20 -> borderClear t st ->
  (Z.of_nat i < requiredCount t)%Z -> (Z.of_nat j < requiredCount t)%Z -> i <> j ->
  covers (placement (Some t) st 1600 (inject_Z (outputHeight t)) i) px py = true ->
  covers (placement (Some t) st 1600 (inject_Z (outputHeight t)) j) px py = false /\
  covers (borderRect st (placement (Some t) st 1600 (inject_Z (outputHeight t)) j))
         px py = false.
Proof.
  destruct st as [b s k]. cbn [borderWidth spacing].
  intros Hb Hs Hclear Hi Hj Hne Hc.
  destruct t; unfold borderClear in Hclear; cbn [borderWidth spacing] in Hclear.
  - change (requiredCount Strip) with 3%Z in *.
    destruct i as [|[|[|i]]]; try lia; destruct j as [|[|[|j]]]; try lia;
      try congruence; clear_of_each_other Hc.
  - change (requiredCount Grid) with 4%Z in *.
    destruct i as [|[|[|[|i]]]]; try lia; destruct j as [|[|[|[|j]]]]; try lia;
      try congruence; clear_of_each_other Hc.
  - change (requiredCount Collage) with 3%Z in *.
    destruct i as [|[|[|i]]]; try lia; destruct j as [|[|[|j]]]; try lia;
      try congruence; clear_of_each_other Hc.
  - change (requiredCount Single) with 1%Z in *.
    destruct i as [|i]; try lia; destruct j as [|j]; try lia; congruence.
Qed.

End Clearance.

(** C3 (counterexample). Strip template, three photos, [borderWidth = 10],
    [spacing = 0]: at the point (100, 790) the composite shows the first
    photo when the images load in the order 2, 1, 0, and the black border of
    the second photo when they load in the order 0, 1, 2. *)
Lemma wide_border_depends_on_load_order :
  let e := mkComposeEnv true true true in
  (0 <= borderWidth (templateStyle wideBorderStrip) <= 10 /\
   0 <= spacing (templateStyle wideBorderStrip) <= 20)%Q /\
  shownAt (promise (runLoads (map Loaded [0; 1; 2])
                      (generateFinalImage e wideBorderStrip))) 100 790
    = Filled (Color "#000000") /\
  shownAt (promise (runLoads (map Loaded [2; 1; 0])
                      (generateFinalImage e wideBorderStrip))) 100 790
    = ImagePixel "data:image/jpeg;base64,AAAA"
                 (placement (Some Strip) (mkStyle 10 0 0) 1600 2400 0) /\
  ~ orderIndependent e wideBorderStrip.
Proof.
  cbv zeta. split; [|split; [|split]].
  - simpl. repeat split; discriminate.
  - vm_compute. reflexivity.
  - vm_compute. reflexivity.
  - intros H. specialize (H [0; 1; 2] [2; 1; 0]).
    set (r1 := promise (runLoads (map Loaded [0; 1; 2]) _)) in H.
    set (r2 := promise (runLoads (map Loaded [2; 1; 0]) _)) in H.
    vm_compute in r1, r2. subst r1 r2.
    assert (H0 : sameResult _ _) by (apply H; [reflexivity|]; simpl;
      apply Permutation_sym, (Permutation_rev [0; 1; 2])).
    destruct H0 as (_ & _ & _ & Hpix).
    specialize (Hpix 100%Q 790%Q).
    assert (Hp : pixelAt _ 100 790 = pixelAt _ 100 790)
      by (apply Hpix; [discriminate|reflexivity|discriminate|reflexivity]).
    vm_compute in Hp. discriminate.
Qed.

Section OrderIndependence.

Lemma apart_seq (t : Template) (st : Style) (px py : Q) (n : nat) :
  (0 <= borderWidth st)%Q -> (0 <= spacing st <= 20)%Q -> borderClear t st ->
  (Z.of_nat n <= requiredCount t)%Z ->
  forall l, incl l (seq 0 n) ->
  apart (Some t) st 1600 (outputHeight t) px py l.
Proof.
  intros Hb Hs Hclear Hn l Hincl i j Hi Hj Hne Hc.
  apply Hincl, in_seq in Hi. apply Hincl, in_seq in Hj.
  unfold inPhoto, inBorder in *.
  apply (photos_clear t st px py i j); auto; lia.
Qed.

Lemma pixelAt_loadAll t st P l c px py :
  NoDup l -> (forall i, In i l -> nth_error P i <> None) ->
  apart t st (width c) (height c) px py l ->
  pixelAt (loadAll t st P l c) px py =
  layered t st P (width c) (height c) px py l (pixelAt c px py).
Proof.
  intros Hnd Hsome Hap. unfold pixelAt.
  rewrite loadAll_ops, fold_left_app. now apply paint_loadOps.
Qed.

End OrderIndependence.

(** C3 (amended). Let the photo sequence be no longer than the selected
    template's photo count, [borderWidth >= 0], [spacing] in [0, 20], and
    let no border reach a neighbouring photo: [borderWidth <= spacing] for
    strip and grid, [2 * borderWidth <= spacing] for collage. Then for any
    two orders in which the images of the sequence finish loading,
    [generateFinalImage] resolves to the same image: same size, and at every
    point of the canvas the same paint. *)
Theorem composite_order_independent (e : ComposeEnv) (s : AppState) (t : Template) :
  selectedTemplate s = Some t ->
  (Z.of_nat (List.length (capturedPhotos s)) <= requiredCount t)%Z ->
  (0 <= borderWidth (templateStyle s))%Q ->
  (0 <= spacing (templateStyle s) <= 20)%Q ->
  borderClear t (templateStyle s) ->
  orderIndependent e s.
Proof.
  intros Ht Hlen Hb Hs Hclear o1 o2 H1 H2.
  destruct (degenerate_or_started e s) as [Hd|(t' & Ht' & Hp & Hc)].
  - destruct (generateFinalImage_degenerate e s Hd) as (Hpr & Himg & _).
    destruct (runLoads_no_images (map Loaded o1) _ Himg) as [-> _].
    destruct (runLoads_no_images (map Loaded o2) _ Himg) as [-> _].
    rewrite Hpr. exact I.
  - assert (t' = t) by congruence. subst t'.
    assert (Hfacts : forall o, Permutation o (seq 0 (List.length (capturedPhotos s))) ->
              NoDup o /\ (forall i, In i o -> i < List.length (capturedPhotos s)) /\
              List.length o = List.length (capturedPhotos s)).
    { intros o Ho. split; [|split].
      - apply (Permutation_NoDup (Permutation_sym Ho)), seq_NoDup.
      - intros i Hi. apply (Permutation_in _ Ho) in Hi. apply in_seq in Hi. lia.
      - rewrite (Permutation_length Ho). apply length_seq. }
    destruct (Hfacts o1 H1) as (Hnd1 & Hin1 & Hl1).
    destruct (Hfacts o2 H2) as (Hnd2 & Hin2 & Hl2).
    rewrite (runLoads_from_start e s t Ht Hp Hc o1 Hnd1 Hin1).
    rewrite (runLoads_from_start e s t Ht Hp Hc o2 Hnd2 Hin2).
    rewrite Hl1, Hl2, Nat.eqb_refl. simpl.
    split; [reflexivity|].
    set (c0 := preparedCanvas e s t).
    destruct (preparedCanvas_size e s t) as [Hw Hh]. fold c0 in Hw, Hh.
    destruct (loadAll_size (Some t) (templateStyle s) (capturedPhotos s) o1 c0) as [Hw1 Hh1].
    destruct (loadAll_size (Some t) (templateStyle s) (capturedPhotos s) o2 c0) as [Hw2 Hh2].
    split; [congruence|]. split; [congruence|].
    intros px py _ _ _ _.
    assert (Hap : forall o, Permutation o (seq 0 (List.length (capturedPhotos s))) ->
              apart (Some t) (templateStyle s) (width c0) (height c0) px py o).
    { intros o Ho. rewrite Hw, Hh.
      apply (apart_seq t (templateStyle s) px py (List.length (capturedPhotos s)));
        auto.
      intros i Hi. apply (Permutation_in _ Ho Hi). }
    assert (Hsome : forall o, (forall i, In i o -> i < List.length (capturedPhotos s)) ->
              forall i, In i o -> nth_error (capturedPhotos s) i <> None).
    { intros o Ho i Hi. apply nth_error_Some, Ho, Hi. }
    rewrite (pixelAt_loadAll _ _ _ o1 c0 px py Hnd1 (Hsome o1 Hin1) (Hap o1 H1)).
    rewrite (pixelAt_loadAll _ _ _ o2 c0 px py Hnd2 (Hsome o2 Hin2) (Hap o2 H2)).
    apply layered_Permutation; [|exact Hnd1|exact (Hap o1 H1)].
    apply (Permutation_trans H1), Permutation_sym, H2.
Qed.

Lemma composite_order_independent_witness :
  sameResult
    (promise (runLoads (map Loaded [0; 1; 2])
                (generateFinalImage (mkComposeEnv true true true)
                   (setTemplateStyle (mkStyle 2 4 0) wideBorderStrip))))
    (promise (runLoads (map Loaded [2; 1; 0])
                (generateFinalImage (mkComposeEnv true true true)
                   (setTemplateStyle (mkStyle 2 4 0) wideBorderStrip)))).
Proof.
  apply (composite_order_independent (mkComposeEnv true true true)
           (setTemplateStyle (mkStyle 2 4 0) wideBorderStrip) Strip).
  - reflexivity.
  - vm_compute. discriminate.
  - simpl. discriminate.
  - simpl. split; discriminate.
  - simpl. discriminate.
  - reflexivity.
  - simpl. apply Permutation_sym, (Permutation_rev [0; 1; 2]).
Defined.

(** * Further properties of the capture sequencer *)

Section Sessions.

Local Open Scope Z_scope.

Lemma remainingPhotos_ext s s' :
  selectedTemplate s' = selectedTemplate s ->
  capturedPhotos s' = capturedPhotos s ->
  remainingPhotos s' = remainingPhotos s.
Proof. intros Ht Hp. unfold remainingPhotos. now rewrite Ht, Hp. Qed.

Lemma refsAttached_camera s :
  refsAttached s = true <-> currentScreen s = ScreenCamera.
Proof. unfold refsAttached. destruct (currentScreen s); split; congruence. Qed.

Lemma sessionInvariant_initial : sessionInvariant initialState.
Proof.
  unfold sessionInvariant; simpl.
  repeat split; auto; try discriminate; intros [H|H]; discriminate.
Qed.

Lemma sessionInvariant_timerTick t e s :
  sessionInvariant s -> sessionInvariant (timerTick t e s).
Proof.
  intros (Hidx & Hlen & Hiff & Hcd & Htpl & Hprev). unfold timerTick.
  destruct (existsb (Nat.eqb t) (timers s)) eqn:Hin; simpl;
    [|exact (conj Hidx (conj Hlen (conj Hiff (conj Hcd (conj Htpl Hprev)))))].
  assert (Hne : timers s <> []) by (destruct (timers s); simpl in Hin; congruence).
  pose proof (single_timer_cleared t (timers s) Hlen Hin) as Hclr.
  assert (Hfire : sessionInvariant
                    (setCountdown None (capturePhoto e (clearInterval t s)))).
  { destruct (capturePhoto_cases e (clearInterval t s)) as [-> | (Hr & _ & ->)].
    - unfold sessionInvariant; simpl. rewrite Hclr.
      repeat split; auto; try discriminate; simpl; lia.
    - apply refsAttached_camera in Hr. simpl in Hr.
      unfold sessionInvariant; simpl. rewrite Hclr, length_app; simpl.
      repeat split; auto; try discriminate; try lia.
      intros Hp. rewrite Hr in Hp. discriminate. }
  destruct (countdown s) as [prev|] eqn:Hc; [|exact Hfire].
  destruct (prev <=? 1) eqn:Hle; [exact Hfire|].
  apply Z.leb_gt in Hle. specialize (Hcd prev eq_refl).
  unfold sessionInvariant; simpl.
  split; [exact Hidx|]. split; [exact Hlen|].
  split; [split; intros H; [tauto|discriminate]|].
  split; [intros n [= <-]; lia|]. split; [exact Htpl|exact Hprev].
Qed.

Lemma sessionInvariant_handle ev s :
  sessionInvariant s -> sessionInvariant (handle ev s).
Proof.
  intros Hs. pose proof Hs as (Hidx & Hlen & Hiff & Hcd & Htpl & Hprev).
  destruct ev; unfold handle;
    try (destruct (currentScreen s) eqn:Hscr; try exact Hs;
         unfold sessionInvariant, remainingPhotos in *; simpl;
         intuition (try discriminate; try congruence; auto); fail).
  - (* take photo *)
    destruct (currentScreen s) eqn:Hscr; try exact Hs.
    destruct (takePhotoDisabled s) eqn:Hd; [exact Hs|].
    unfold takePhotoDisabled in Hd. apply orb_false_iff in Hd as [Hc _].
    destruct (countdown s) eqn:Hcount; [discriminate|].
    assert (Ht : timers s = []) by tauto.
    unfold sessionInvariant, startCountdown; simpl. rewrite Ht, Hscr; simpl.
    split; [exact Hidx|]. split; [lia|]. split; [split; discriminate|].
    split; [intros n [= <-]; lia|]. split; [intros _; apply Htpl; auto|discriminate].
  - (* preview *)
    destruct (currentScreen s) eqn:Hscr; try exact Hs.
    destruct (remainingPhotos s =? 0) eqn:Hr; [|exact Hs].
    apply Z.eqb_eq in Hr.
    unfold sessionInvariant; simpl.
    split; [exact Hidx|]. split; [exact Hlen|]. split; [exact Hiff|].
    split; [exact Hcd|]. split; [intros _; apply Htpl; auto|].
    intros _. rewrite <- Hr. now apply remainingPhotos_ext.
  - (* timer *)
    assert (Ht : sessionInvariant (timerTick t e s))
      by now apply sessionInvariant_timerTick.
    destruct (currentScreen s); exact Ht.
Qed.

Lemma sessionInvariant_run evs : forall s,
  sessionInvariant s -> sessionInvariant (run evs s).
Proof.
  induction evs as [|ev evs IH]; intros s Hs; simpl; [exact Hs|].
  apply IH, sessionInvariant_handle, Hs.
Qed.

Lemma handle_keeps_photos ev s :
  resetsPhotos ev = false ->
  exists more, capturedPhotos (handle ev s) = capturedPhotos s ++ more.
Proof.
  intros Hev.
  assert (Hsame : exists more, capturedPhotos s = capturedPhotos s ++ more)
    by (exists []; now rewrite app_nil_r).
  destruct ev; try discriminate; unfold handle;
    try (destruct (currentScreen s); exact Hsame).
  - destruct (currentScreen s); try exact Hsame.
    destruct (takePhotoDisabled s); exact Hsame.
  - destruct (currentScreen s); try exact Hsame.
    destruct (remainingPhotos s =? 0); exact Hsame.
  - assert (Ht : exists more,
               capturedPhotos (timerTick t e s) = capturedPhotos s ++ more).
    { unfold timerTick.
      destruct (existsb (Nat.eqb t) (timers s)); simpl; [|exact Hsame].
      assert (Hfire : exists more,
                capturedPhotos (setCountdown None (capturePhoto e (clearInterval t s)))
                = capturedPhotos s ++ more).
      { destruct (capturePhoto_cases e (clearInterval t s)) as [-> | (_ & _ & ->)].
        - exact Hsame.
        - simpl. eexists. reflexivity. }
      destruct (countdown s) as [prev|]; [|exact Hfire].
      destruct (prev <=? 1); [exact Hfire|exact Hsame]. }
    destruct (currentScreen s); exact Ht.
Qed.

End Sessions.

(** X1. In every state a session can reach, whatever the events were, the
    position counter [currentPhotoIndex] equals the number of photos held:
    capture, RETRY and NEW SESSION keep the two in step. *)
Theorem position_counter_tracks_sequence (evs : list Event) :
  currentPhotoIndex (run evs initialState)
  = Z.of_nat (List.length (capturedPhotos (run evs initialState))).
Proof.
  destruct (sessionInvariant_run evs initialState sessionInvariant_initial)
    as (H & _). exact H.
Qed.

(** X2. Driven through the user interface, the sequencer never has two
    countdowns at once: in every reachable state at most one timer is armed,
    a timer is armed exactly while the countdown is shown, and the countdown
    shows 3, 2 or 1 and nothing else. *)
Theorem countdown_single_and_bounded (evs : list Event) :
  let s := run evs initialState in
  (List.length (timers s) <= 1)%nat /\
  (timers s = [] <-> countdown s = None) /\
  (countdown s = None \/ countdown s = Some 3%Z \/
   countdown s = Some 2%Z \/ countdown s = Some 1%Z).
Proof.
  cbv zeta.
  destruct (sessionInvariant_run evs initialState sessionInvariant_initial)
    as (_ & Hlen & Hiff & Hcd & _).
  split; [exact Hlen|]. split; [exact Hiff|].
  destruct (countdown (run evs initialState)) as [n|]; [|now left].
  specialize (Hcd n eq_refl).
  assert (Hn : (n = 1 \/ n = 2 \/ n = 3)%Z) by lia.
  destruct Hn as [Hn | [Hn | Hn]]; subst n; auto.
Qed.

(** X3. Whenever the preview screen is shown, a template is selected and
    the sequence holds exactly that template's number of photos: the
    composite is never generated from a short or an overfull sequence, also
    after a template was re-selected over photos already held. *)
Theorem preview_holds_required_count (evs : list Event) :
  let s := run evs initialState in
  currentScreen s = ScreenPreview ->
  exists t, selectedTemplate s = Some t /\
            Z.of_nat (List.length (capturedPhotos s)) = requiredCount t.
Proof.
  cbv zeta. intros Hscr.
  destruct (sessionInvariant_run evs initialState sessionInvariant_initial)
    as (_ & _ & _ & _ & Htpl & Hprev).
  specialize (Hprev Hscr).
  destruct (selectedTemplate (run evs initialState)) as [t|] eqn:Ht;
    [|exfalso; apply Htpl; auto].
  exists t. split; [reflexivity|].
  rewrite (remainingPhotos_Some _ t Ht) in Hprev. lia.
Qed.

Lemma preview_holds_required_count_witness :
  exists t,
    selectedTemplate
      (run ([ClickStartSession; ClickTemplateCard Single] ++ shot 0 ++ [ClickPreview])
           initialState) = Some t /\
    Z.of_nat (List.length (capturedPhotos
      (run ([ClickStartSession; ClickTemplateCard Single] ++ shot 0 ++ [ClickPreview])
           initialState))) = requiredCount t.
Proof.
  apply (preview_holds_required_count
           ([ClickStartSession; ClickTemplateCard Single] ++ shot 0 ++ [ClickPreview])).
  reflexivity.
Defined.

(** X4. From any state, events other than RETRY and NEW SESSION never drop,
    reorder or alter a photo already held: the sequence before is a prefix
    of the sequence after. *)
Theorem photos_kept_in_capture_order (evs : list Event) (s : AppState) :
  forallb (fun ev => negb (resetsPhotos ev)) evs = true ->
  exists more, capturedPhotos (run evs s) = capturedPhotos s ++ more.
Proof.
  revert s. induction evs as [|ev evs IH]; intros s Hevs.
  - exists []. simpl. now rewrite app_nil_r.
  - simpl in Hevs. apply andb_true_iff in Hevs as [Hev Hrest].
    apply negb_true_iff in Hev.
    destruct (handle_keeps_photos ev s Hev) as (m1 & H1).
    destruct (IH (handle ev s) Hrest) as (m2 & H2).
    exists (m1 ++ m2).
    change (run (ev :: evs) s) with (run evs (handle ev s)).
    rewrite H2, H1, app_assoc. reflexivity.
Qed.

Lemma photos_kept_in_capture_order_witness :
  exists more,
    capturedPhotos (run (shot 1 ++ [ClickBackToTemplates; ClickTemplateCard Strip])
                        (run (shot 0) cameraIdle))
    = capturedPhotos (run (shot 0) cameraIdle) ++ more.
Proof.
  apply (photos_kept_in_capture_order
           (shot 1 ++ [ClickBackToTemplates; ClickTemplateCard Strip])
           (run (shot 0) cameraIdle)).
  reflexivity.
Defined.

(** * Properties of camera acquisition *)

Section Camera.

Lemma stopCamera_facts c :
  app (stopCamera c) = app c /\ streamRef (stopCamera c) = None /\
  pendingMedia (stopCamera c) = pendingMedia c /\
  nextMedia (stopCamera c) = nextMedia c /\
  (forall k, In k (liveStreams (stopCamera c)) <->
             In k (liveStreams c) /\ streamRef c <> Some k).
Proof.
  unfold stopCamera. destruct (streamRef c) as [j|] eqn:Hj; simpl.
  - repeat split; auto.
    + apply filter_In in H. tauto.
    + apply filter_In in H as [_ H]. apply negb_true_iff, Nat.eqb_neq in H. congruence.
    + intros [Hin Hne]. apply filter_In. split; [exact Hin|].
      apply negb_true_iff, Nat.eqb_neq. congruence.
  - rewrite Hj. repeat split; auto; try tauto. discriminate.
Qed.

Lemma existsb_eqb_In r l : existsb (Nat.eqb r) l = true <-> In r l.
Proof.
  rewrite existsb_exists. split.
  - intros (x & Hx & He). apply Nat.eqb_eq in He. now subst.
  - intros H. exists r. split; [exact H|apply Nat.eqb_refl].
Qed.

Lemma cameraInvariant_mounted : cameraInvariant mountedCamera.
Proof.
  unfold cameraInvariant, mountedCamera; simpl.
  repeat split; try discriminate; contradiction.
Qed.

Lemma cameraInvariant_effect c :
  (forall k, In k (liveStreams c) -> k < nextMedia c) ->
  (forall r, In r (pendingMedia c) -> r < nextMedia c) ->
  (forall k, In k (liveStreams c) -> ~ In k (pendingMedia c)) ->
  cameraInvariant (cameraEffect (cameraCleanup c)).
Proof.
  intros Hl Hp Hd. unfold cameraCleanup, cameraEffect.
  destruct (stopCamera_facts c) as (Ha & Hr & Hpe & Hn & Hlive).
  rewrite Ha.
  assert (Hstopped : cameraInvariant (stopCamera c)).
  { unfold cameraInvariant. rewrite Hr, Hpe, Hn.
    split; [discriminate|]. split; [intros k Hk; apply Hl, Hlive, Hk|].
    split; [exact Hp|]. intros k Hk. apply Hd, Hlive, Hk. }
  assert (Htwice : cameraInvariant (stopCamera (stopCamera c))).
  { unfold stopCamera at 1. rewrite Hr. exact Hstopped. }
  destruct (currentScreen (app c)); try exact Htwice.
  destruct Hstopped as (Hs' & Hl' & Hp' & Hd').
  unfold cameraInvariant, startCamera; simpl. rewrite Hr.
  split; [discriminate|]. split; [intros k Hk; specialize (Hl' k Hk); lia|].
  split.
  - intros r [<-|Hr']; [lia|specialize (Hp' r Hr'); lia].
  - intros k Hk [<-|Hin]; [specialize (Hl' _ Hk); lia|exact (Hd' k Hk Hin)].
Qed.

Lemma cameraInvariant_step ev c :
  cameraInvariant c -> cameraInvariant (cameraStep ev c).
Proof.
  intros Hc. pose proof Hc as (Hs & Hl & Hp & Hd).
  destruct ev as [u|r|r]; simpl.
  - destruct (Screen_eqb _ _) eqn:Heq.
    + assert (Hscr : currentScreen (handle u (app c)) = currentScreen (app c))
        by (destruct (currentScreen (handle u (app c))), (currentScreen (app c));
            simpl in Heq; congruence).
      unfold cameraInvariant; simpl. rewrite Hscr. exact Hc.
    + apply cameraInvariant_effect; simpl; assumption.
  - unfold mediaGranted.
    destruct (existsb (Nat.eqb r) (pendingMedia c)) eqn:Hr; simpl; [|exact Hc].
    apply existsb_eqb_In in Hr.
    unfold cameraInvariant; simpl.
    split; [|split; [|split]].
    + intros k Hk. destruct (refsAttached (app c)) eqn:Hrefs.
      * injection Hk as <-. split; [now apply refsAttached_camera|now left].
      * destruct (Hs k Hk) as [Hcam Hin]. split; [exact Hcam|now right].
    + intros k [<-|Hk]; [apply Hp, Hr|apply Hl, Hk].
    + intros q Hq. apply filter_In in Hq as [Hq _]. apply Hp, Hq.
    + intros k [<-|Hk] Hq; apply filter_In in Hq as [Hq Hne].
      * rewrite Nat.eqb_refl in Hne. discriminate.
      * exact (Hd k Hk Hq).
  - unfold mediaDenied.
    destruct (existsb (Nat.eqb r) (pendingMedia c)) eqn:Hr; simpl; [|exact Hc].
    unfold cameraInvariant; simpl.
    split; [exact Hs|]. split; [exact Hl|]. split.
    + intros q Hq. apply filter_In in Hq as [Hq _]. apply Hp, Hq.
    + intros k Hk Hq. apply filter_In in Hq as [Hq _]. exact (Hd k Hk Hq).
Qed.

End Camera.

Section CameraRuns.

Lemma cameraInvariant_run evs : forall c,
  cameraInvariant c -> cameraInvariant (runCamera evs c).
Proof.
  induction evs as [|ev evs IH]; intros c Hc; simpl; [exact Hc|].
  apply IH, cameraInvariant_step, Hc.
Qed.

Lemma Screen_eqb_eq a b : Screen_eqb a b = true <-> a = b.
Proof. destruct a, b; simpl; split; congruence. Qed.

(** A stream whose tracks run without being the stored one stays so. *)
Lemma orphan_step ev c k :
  cameraInvariant c -> In k (liveStreams c) -> streamRef c <> Some k ->
  In k (liveStreams (cameraStep ev c)) /\ streamRef (cameraStep ev c) <> Some k.
Proof.
  intros (Hs & Hl & Hp & Hd) Hk Hne. destruct ev as [u|r|r]; simpl.
  - destruct (Screen_eqb _ _); [simpl; auto|].
    set (c' := mkCamera (handle u (app c)) (streamRef c) (liveStreams c)
                        (pendingMedia c) (nextMedia c) (errorsLogged c)).
    destruct (stopCamera_facts c') as (Ha & Hr & Hpe & Hn & Hlive).
    assert (Hk' : In k (liveStreams (stopCamera c'))) by (apply Hlive; auto).
    unfold cameraCleanup, cameraEffect. rewrite Ha.
    assert (Hstop2 : stopCamera (stopCamera c') = stopCamera c')
      by (unfold stopCamera at 1; now rewrite Hr).
    destruct (currentScreen (app c')); rewrite ?Hstop2;
      try (split; [exact Hk'|rewrite Hr; discriminate]).
    unfold startCamera; simpl. split; [exact Hk'|rewrite Hr; discriminate].
  - unfold mediaGranted.
    destruct (existsb (Nat.eqb r) (pendingMedia c)) eqn:Hr; simpl; [|auto].
    apply existsb_eqb_In in Hr. split; [now right|].
    destruct (refsAttached (app c)); [|exact Hne].
    intros [= ->]. exact (Hd k Hk Hr).
  - unfold mediaDenied.
    destruct (existsb (Nat.eqb r) (pendingMedia c)); simpl; auto.
Qed.

End CameraRuns.

(** X5. Whatever the events, a stream is stored in [streamRef] only while
    the camera screen is shown, and its tracks are then running: off the
    camera screen no stream is held. *)
Theorem stream_held_only_on_camera_screen (evs : list CameraEvent) :
  let c := runCamera evs mountedCamera in
  (forall k, streamRef c = Some k ->
     currentScreen (app c) = ScreenCamera /\ In k (liveStreams c)) /\
  (currentScreen (app c) <> ScreenCamera -> streamRef c = None).
Proof.
  cbv zeta.
  destruct (cameraInvariant_run evs mountedCamera cameraInvariant_mounted)
    as (Hs & _).
  split; [exact Hs|]. intros Hscr.
  destruct (streamRef (runCamera evs mountedCamera)) as [k|] eqn:Hk; [|reflexivity].
  destruct (Hs k eq_refl) as [Hcam _]. contradiction.
Qed.

Lemma stream_held_only_on_camera_screen_witness :
  currentScreen
    (app (runCamera [Ui ClickStartSession; Ui (ClickTemplateCard Strip); MediaGranted 0]
                    mountedCamera)) = ScreenCamera /\
  In 0 (liveStreams
          (runCamera [Ui ClickStartSession; Ui (ClickTemplateCard Strip); MediaGranted 0]
                     mountedCamera)).
Proof.
  destruct (stream_held_only_on_camera_screen
              [Ui ClickStartSession; Ui (ClickTemplateCard Strip); MediaGranted 0])
    as [H _].
  cbv zeta in H. apply (H 0). reflexivity.
Defined.

(** X6. Whatever event takes the application off the camera screen, the
    tracks of the stream that was stored are stopped and the stream is
    forgotten. *)
Theorem leaving_camera_stops_stream (evs : list CameraEvent) (ev : CameraEvent)
        (k : nat) :
  let c := runCamera evs mountedCamera in
  streamRef c = Some k ->
  currentScreen (app (cameraStep ev c)) <> ScreenCamera ->
  ~ In k (liveStreams (cameraStep ev c)) /\ streamRef (cameraStep ev c) = None.
Proof.
  cbv zeta. intros Hk Hleft.
  destruct (cameraInvariant_run evs mountedCamera cameraInvariant_mounted)
    as (Hs & _).
  destruct (Hs k Hk) as [Hcam _].
  set (c := runCamera evs mountedCamera) in *.
  destruct ev as [u|r|r]; simpl in *.
  - destruct (Screen_eqb _ _) eqn:Heq.
    + apply Screen_eqb_eq in Heq. simpl in Hleft. congruence.
    + set (c' := mkCamera (handle u (app c)) (streamRef c) (liveStreams c)
                          (pendingMedia c) (nextMedia c) (errorsLogged c)) in *.
      destruct (stopCamera_facts c') as (Ha & Hr & _ & _ & Hlive).
      assert (Hstop2 : stopCamera (stopCamera c') = stopCamera c')
        by (unfold stopCamera at 1; now rewrite Hr).
      assert (Hscr : currentScreen (app c') <> ScreenCamera).
      { intros Hc'. apply Hleft. unfold cameraCleanup, cameraEffect.
        rewrite Ha, Hc'. simpl. rewrite Ha. exact Hc'. }
      unfold cameraCleanup, cameraEffect in *. rewrite Ha in *.
      destruct (currentScreen (app c')); try contradiction;
        rewrite Hstop2; (split; [|exact Hr]);
        intros Hin; apply Hlive in Hin as [_ Hne]; apply Hne; exact Hk.
  - exfalso. apply Hleft. unfold mediaGranted.
    destruct (existsb _ _); exact Hcam.
  - exfalso. apply Hleft. unfold mediaDenied.
    destruct (existsb _ _); exact Hcam.
Qed.

Lemma leaving_camera_stops_stream_witness :
  ~ In 0 (liveStreams
            (runCamera [Ui ClickStartSession; Ui (ClickTemplateCard Strip);
                        MediaGranted 0; Ui ClickBackToTemplates] mountedCamera)).
Proof.
  apply (leaving_camera_stops_stream
           [Ui ClickStartSession; Ui (ClickTemplateCard Strip); MediaGranted 0]
           (Ui ClickBackToTemplates) 0).
  - reflexivity.
  - simpl. discriminate.
Defined.

(** X7. A stream that [getUserMedia] delivers when the <video> element is
    not mounted (the camera screen was left in the meantime), or that was
    replaced in [streamRef] by a later one, is never stopped: once a stream
    is running without being the stored one, it keeps running whatever
    happens afterwards, and is never stored again. *)
Theorem unreferenced_stream_never_stopped (before after : list CameraEvent)
        (k : nat) :
  let c := runCamera before mountedCamera in
  In k (liveStreams c) -> streamRef c <> Some k ->
  In k (liveStreams (runCamera after c)) /\
  streamRef (runCamera after c) <> Some k.
Proof.
  cbv zeta.
  pose proof (cameraInvariant_run before mountedCamera cameraInvariant_mounted) as Hinv.
  generalize dependent (runCamera before mountedCamera). intros c Hinv.
  revert c Hinv. induction after as [|ev evs IH]; intros c Hinv Hk Hne; simpl.
  - auto.
  - destruct (orphan_step ev c k Hinv Hk Hne) as [Hk' Hne'].
    apply IH; auto. now apply cameraInvariant_step.
Qed.

Lemma unreferenced_stream_never_stopped_witness :
  In 0 (liveStreams
          (runCamera [Ui (ClickTemplateCard Grid); Ui ClickBackToTemplates;
                      Ui ClickTemplateBack]
                     (runCamera lateGrant mountedCamera))) /\
  streamRef
    (runCamera [Ui (ClickTemplateCard Grid); Ui ClickBackToTemplates;
                Ui ClickTemplateBack]
               (runCamera lateGrant mountedCamera)) <> Some 0.
Proof.
  apply (unreferenced_stream_never_stopped lateGrant
           [Ui (ClickTemplateCard Grid); Ui ClickBackToTemplates; Ui ClickTemplateBack]
           0).
  - simpl. now left.
  - simpl. discriminate.
Defined.

(** * Further properties of the placement geometry *)

Local Open Scope Q_scope.

Ltac open_rects :=
  cbv beta iota zeta delta
      [placement borderRect rx ry rw rh spacing borderWidth num Nat.eqb
       outputHeight Template_eqb] in *;
  simpl Z.of_nat in *; unfold inject_Z in *;
  unfold Qdiv in *;
  change (/ 3) with (1 # 3) in *; change (/ 2) with (1 # 2) in *.

Lemma num_le (a b : nat) : (a <= b)%nat -> num a <= num b.
Proof. intros H. unfold num. rewrite <- Zle_Qle. lia. Qed.

Lemma placement_ignores_border t b b' s k k' cw ch i :
  placement t (mkStyle b s k) cw ch i = placement t (mkStyle b' s k') cw ch i.
Proof. destruct t as [[| | |]|]; reflexivity. Qed.

(** X8. For every template and every spacing in [0, 20], the rectangle of
    each photo up to the template's photo count has positive width and
    height and lies inside the output canvas. *)
Theorem photo_inside_canvas (t : Template) (st : Style) (i : nat) :
  0 <= spacing st <= 20 ->
  (Z.of_nat i < requiredCount t)%Z ->
  let r := placement (Some t) st 1600 (inject_Z (outputHeight t)) i in
  0 <= rx r /\ 0 <= ry r /\ 0 < rw r /\ 0 < rh r /\
  rx r + rw r <= 1600 /\ ry r + rh r <= inject_Z (outputHeight t).
Proof.
  destruct st as [b s k]. cbn [spacing]. intros Hs Hi. cbv zeta.
  destruct t.
  - change (requiredCount Strip) with 3%Z in *.
    destruct i as [|[|[|i]]]; try lia; open_rects; repeat split; lra.
  - change (requiredCount Grid) with 4%Z in *.
    destruct i as [|[|[|[|i]]]]; try lia; open_rects; repeat split; lra.
  - change (requiredCount Collage) with 3%Z in *.
    destruct i as [|[|[|i]]]; try lia; open_rects; repeat split; lra.
  - change (requiredCount Single) with 1%Z in *.
    destruct i as [|i]; try lia; open_rects; repeat split; lra.
Qed.

Lemma photo_inside_canvas_witness :
  ry (placement (Some Grid) (mkStyle 2 4 0) 1600 1600 3)
  + rh (placement (Some Grid) (mkStyle 2 4 0) 1600 1600 3) <= 1600.
Proof.
  destruct (photo_inside_canvas Grid (mkStyle 2 4 0) 3) as (_ & _ & _ & _ & _ & H).
  - simpl. split; discriminate.
  - reflexivity.
  - exact H.
Defined.

(** X9. For every template and every spacing in [0, 20], whatever the border
    width, no point of the canvas lies in the rectangles of two different
    photos of the sequence: photos never overlap each other. *)
Theorem photos_never_overlap (t : Template) (st : Style) (i j : nat) (px py : Q) :
  0 <= spacing st <= 20 ->
  (Z.of_nat i < requiredCount t)%Z -> (Z.of_nat j < requiredCount t)%Z ->
  i <> j ->
  covers (placement (Some t) st 1600 (inject_Z (outputHeight t)) i) px py = true ->
  covers (placement (Some t) st 1600 (inject_Z (outputHeight t)) j) px py = false.
Proof.
  destruct st as [b s k]. cbn [spacing]. intros Hs Hi Hj Hne Hc.
  rewrite (placement_ignores_border (Some t) b 0 s k k) in Hc.
  rewrite (placement_ignores_border (Some t) b 0 s k k).
  apply (photos_clear t (mkStyle 0 s k) px py i j); auto.
  - simpl. lra.
  - destruct t; simpl; lra || exact I.
Qed.

Lemma photos_never_overlap_witness :
  covers (placement (Some Collage) (mkStyle 10 0 0) 1600 1600 2) 900 100 = false.
Proof.
  apply (photos_never_overlap Collage (mkStyle 10 0 0) 1 2 900 100).
  - simpl. split; discriminate.
  - reflexivity.
  - reflexivity.
  - discriminate.
  - reflexivity.
Defined.

(** X10. For strip, grid and collage and every spacing in [0, 20], a photo
    whose index is at or beyond the template's photo count is placed wholly
    at or below the bottom edge of the canvas: a photo in excess of the
    count never shows in the composite. *)
Theorem excess_photo_off_canvas (t : Template) (st : Style) (i : nat) (px py : Q) :
  t <> Single ->
  0 <= spacing st <= 20 ->
  (requiredCount t <= Z.of_nat i)%Z ->
  covers (placement (Some t) st 1600 (inject_Z (outputHeight t)) i) px py = true ->
  inject_Z (outputHeight t) <= py.
Proof.
  destruct st as [b s k]. cbn [spacing]. intros Ht Hs Hi Hc.
  destruct t; [| | |congruence].
  - change (requiredCount Strip) with 3%Z in Hi.
    change (inject_Z (outputHeight Strip)) with 2400 in *.
    assert (Hn : 3 <= num i) by (apply (num_le 3 i); lia).
    apply covers_spec in Hc;
      [|cbv beta iota zeta delta [placement rx ry rw rh spacing];
        unfold Qdiv; change (/ 3) with (1 # 3); lra ..].
    cbv beta iota zeta delta [placement rx ry rw rh spacing] in Hc.
    unfold Qdiv in Hc; change (/ 3) with (1 # 3) in Hc.
    set (n := num i) in *. clearbody n.
    destruct Hc as (_ & _ & Hy & _).
    assert (0 <= ((2400 - s * 8) * (1 # 3) + s * 2) * (n - 3))
      by (apply Qmult_le_0_compat; lra).
    lra.
  - change (requiredCount Grid) with 4%Z in Hi.
    change (inject_Z (outputHeight Grid)) with 1600 in *.
    assert (Hn : 2 <= num (i / 2)).
    { apply (num_le 2 (i / 2)). apply Nat.div_le_lower_bound; lia. }
    apply covers_spec in Hc;
      [|cbv beta iota zeta delta [placement rx ry rw rh spacing];
        unfold Qdiv; change (/ 2) with (1 # 2); lra ..].
    cbv beta iota zeta delta [placement rx ry rw rh spacing] in Hc.
    unfold Qdiv in Hc; change (/ 2) with (1 # 2) in Hc.
    set (n := num (i / 2)) in *. clearbody n.
    destruct Hc as (_ & _ & Hy & _).
    assert (0 <= ((1600 - s * 6) * (1 # 2) + s * 2) * (n - 2))
      by (apply Qmult_le_0_compat; lra).
    lra.
  - change (requiredCount Collage) with 3%Z in Hi.
    change (inject_Z (outputHeight Collage)) with 1600 in *.
    assert (Hn : 3 <= num i) by (apply (num_le 3 i); lia).
    destruct i as [|i]; [simpl in Hi; lia|].
    apply covers_spec in Hc;
      [|cbv beta iota zeta delta [placement rx ry rw rh spacing Nat.eqb];
        unfold Qdiv; change (/ 2) with (1 # 2); lra ..].
    cbv beta iota zeta delta [placement rx ry rw rh spacing Nat.eqb] in Hc.
    unfold Qdiv in Hc; change (/ 2) with (1 # 2) in Hc.
    set (n := num (S i)) in *. clearbody n.
    destruct Hc as (_ & _ & Hy & _).
    assert (0 <= ((1600 - s * 6) * (1 # 2) + s * 2) * (n - 3))
      by (apply Qmult_le_0_compat; lra).
    lra.
Qed.

Lemma excess_photo_off_canvas_witness : 2400 <= 2500.
Proof.
  apply (excess_photo_off_canvas Strip (mkStyle 2 4 0) 3 100 2500).
  - discriminate.
  - simpl. split; discriminate.
  - vm_compute. discriminate.
  - reflexivity.
Defined.

(** * Further properties of the composite *)

Local Open Scope nat_scope.

Section CompositeContent.

Variable e : ComposeEnv.
Variable s : AppState.
Variable t : Template.
Hypothesis Htemplate : selectedTemplate s = Some t.
Hypothesis Hphotos : capturedPhotos s <> [].
Hypothesis Hctx : canvasCtx e = true.

Lemma loadOps_app t0 st P w h l1 l2 :
  loadOps t0 st P w h (l1 ++ l2)
  = (loadOps t0 st P w h l1 ++ loadOps t0 st P w h l2)%list.
Proof. unfold loadOps. apply flat_map_app. Qed.

(** The commands on the canvas of a run are those of the background
    followed by those of the load handlers that ran, in the order they ran. *)
Lemma canvas_ops_run evs :
  exists c l,
    canvas (runLoads evs (generateFinalImage e s)) = Some c /\
    width c = 1600%Z /\ height c = outputHeight t /\
    ops c = (ops (preparedCanvas e s t)
             ++ loadOps (Some t) (templateStyle s) (capturedPhotos s)
                        1600 (outputHeight t) l)%list /\
    (forall i, In i l -> i < List.length (capturedPhotos s)).
Proof using Htemplate Hphotos Hctx.
  induction evs as [|ev evs IH] using rev_ind.
  - rewrite (generateFinalImage_started e s t Htemplate Hphotos Hctx). simpl.
    destruct (preparedCanvas_size e s t) as [Hw Hh].
    exists (preparedCanvas e s t), []. simpl. rewrite app_nil_r.
    repeat split; auto. contradiction.
  - destruct IH as (c & l & Hc & Hw & Hh & Hops & Hl).
    destruct (running_runLoads e s t Htemplate Hphotos Hctx evs)
      as (Ht & Hst & _ & c1 & done & _ & _ & _ & _ & _ & _ & Himg & _).
    unfold runLoads in *. rewrite fold_left_app. simpl.
    set (g := fold_left (fun st ev => settle ev st) evs (generateFinalImage e s)) in *.
    destruct ev as [i|i]; simpl.
    + unfold onload. rewrite Hc.
      destruct (lookupImage i (images g)) as [photo|] eqn:Hlook.
      * apply lookupImage_In in Hlook. destruct (Himg _ _ Hlook) as [Hnth _].
        simpl. rewrite Ht, Hst.
        exists (drawPhoto (Some t) (templateStyle s) i photo c), (l ++ [i])%list.
        destruct (drawPhoto_size (Some t) (templateStyle s) i photo c) as [Hw' Hh'].
        split; [reflexivity|]. split; [congruence|]. split; [congruence|]. split.
        -- rewrite drawPhoto_ops, Hops, loadOps_app, Hw, Hh, <- app_assoc.
           f_equal. f_equal. unfold loadOps. simpl. rewrite Hnth.
           now rewrite app_nil_r.
        -- intros j Hj. apply in_app_or in Hj as [Hj|[<-|[]]]; [now apply Hl|].
           apply nth_error_Some. congruence.
      * exists c, l. auto.
    + exists c, l. auto.
Qed.

Lemma paintOver_uncovered px py (l : list DrawOp) : forall below,
  (forall op, In op l -> covers (opRect op) px py = false) ->
  fold_left (paintOver px py) l below = below.
Proof.
  induction l as [|op l IH]; intros below H; simpl; [reflexivity|].
  rewrite IH by (intros o Ho; apply H; now right).
  unfold paintOver. now rewrite (H op (or_introl eq_refl)).
Qed.

Lemma paintOver_painted px py (l : list DrawOp) : forall below,
  below <> Blank -> fold_left (paintOver px py) l below <> Blank.
Proof.
  induction l as [|op l IH]; intros below H; simpl; [exact H|].
  apply IH. unfold paintOver. destruct (covers (opRect op) px py); [|exact H].
  destruct op; discriminate.
Qed.

Lemma loadOps_rects t0 st P w h l op :
  In op (loadOps t0 st P w h l) ->
  exists i, In i l /\
    (opRect op = placement t0 st (inject_Z w) (inject_Z h) i \/
     opRect op = borderRect st (placement t0 st (inject_Z w) (inject_Z h) i)).
Proof.
  unfold loadOps. rewrite in_flat_map. intros (i & Hi & Hop).
  exists i. split; [exact Hi|].
  destruct (nth_error P i) as [p|]; [|contradiction].
  unfold photoOps in Hop. apply in_app_or in Hop as [Hop|[<-|[]]].
  - destruct (Qlt_le_dec 0 (borderWidth st)); [|contradiction].
    destruct Hop as [<-|[]]. now right.
  - now left.
Qed.

(** The background command of a known background. *)
Lemma preparedCanvas_ops b :
  In b backgrounds -> selectedBackground s = bg_id b ->
  exists F,
    ops (preparedCanvas e s t)
      = [FillRect F (mkRect 0 0 1600 (inject_Z (outputHeight t)))] /\
    F = (if String.eqb (bg_id b) "pattern"
         then if createPatternOk e then Pattern (createPatternCanvas e)
              else Color "#ffffff"
         else Color (bg_color b)).
Proof.
  intros Hb Hsel. unfold preparedCanvas, applyBackground. rewrite Hsel.
  simpl in Hb. destruct Hb as [<-|[<-|[<-|[<-|[]]]]]; simpl;
    try (eexists; split; reflexivity).
  destruct (createPatternOk e); eexists; split; reflexivity.
Qed.

Lemma full_canvas_covers (H : Z) (px py : Q) :
  (0 <= px)%Q -> (px < 1600)%Q -> (0 <= py)%Q -> (py < inject_Z H)%Q ->
  covers (mkRect 0 0 1600 (inject_Z H)) px py = true.
Proof.
  intros H1 H2 H3 H4. apply covers_spec; simpl; lra.
Qed.

End CompositeContent.

(** X11. Under the conditions that make the composite independent of the
    load order (sequence within the photo count, spacing in [0, 20], no
    border reaching a neighbour), and in whatever order the images load,
    every point of a photo's placement rectangle shows that photo in the
    image the promise is fulfilled with: no photo is hidden, wholly or in
    part, by a border or by another photo. *)
Theorem composite_shows_every_photo (e : ComposeEnv) (s : AppState) (t : Template)
        (order : list nat) (i : nat) (p : CapturedPhoto) (px py : Q) :
  selectedTemplate s = Some t ->
  canvasCtx e = true ->
  (Z.of_nat (List.length (capturedPhotos s)) <= requiredCount t)%Z ->
  (0 <= borderWidth (templateStyle s))%Q ->
  (0 <= spacing (templateStyle s) <= 20)%Q ->
  borderClear t (templateStyle s) ->
  Permutation order (seq 0 (List.length (capturedPhotos s))) ->
  nth_error (capturedPhotos s) i = Some p ->
  covers (placement (Some t) (templateStyle s) 1600 (inject_Z (outputHeight t)) i)
         px py = true ->
  shownAt (promise (runLoads (map Loaded order) (generateFinalImage e s))) px py
  = ImagePixel (dataUrl p)
      (placement (Some t) (templateStyle s) 1600 (inject_Z (outputHeight t)) i).
Proof.
  intros Ht Hc Hlen Hb Hs Hclear Hperm Hnth Hcov.
  assert (Hp : capturedPhotos s <> []) by (intros H; rewrite H in Hnth; destruct i; discriminate).
  assert (Hnd : NoDup order)
    by (apply (Permutation_NoDup (Permutation_sym Hperm)), seq_NoDup).
  assert (Hin : forall j, In j order -> j < List.length (capturedPhotos s)).
  { intros j Hj. apply (Permutation_in _ Hperm) in Hj. apply in_seq in Hj. lia. }
  assert (Hi : In i order).
  { apply (Permutation_in _ (Permutation_sym Hperm)), in_seq.
    split; [lia|]. simpl. apply nth_error_Some. congruence. }
  rewrite (runLoads_from_start e s t Ht Hp Hc order Hnd Hin).
  rewrite (Permutation_length Hperm), length_seq, Nat.eqb_refl. simpl.
  set (c0 := preparedCanvas e s t).
  destruct (preparedCanvas_size e s t) as [Hw Hh]. fold c0 in Hw, Hh.
  assert (Hap : apart (Some t) (templateStyle s) (width c0) (height c0) px py order).
  { rewrite Hw, Hh.
    apply (apart_seq t (templateStyle s) px py (List.length (capturedPhotos s))); auto.
    intros j Hj. apply (Permutation_in _ Hperm Hj). }
  rewrite (pixelAt_loadAll _ _ _ order c0 px py Hnd).
  - unfold layered. rewrite Hw, Hh.
    destruct (find _ order) as [j|] eqn:Hfind.
    + apply find_some in Hfind as [Hj Hhit].
      destruct (Nat.eq_dec j i) as [->|Hne]; [now rewrite Hnth|].
      rewrite Hw, Hh in Hap.
      destruct (Hap j i Hj Hi Hne Hhit) as [Hno _].
      unfold inPhoto in Hno. change (inject_Z 1600) with 1600%Q in Hno. congruence.
    + apply (find_none _ _ Hfind) in Hi. unfold inPhoto in Hi.
      change (inject_Z 1600) with 1600%Q in Hi. congruence.
  - intros j Hj. apply nth_error_Some, Hin, Hj.
  - exact Hap.
Qed.

Lemma composite_shows_every_photo_witness :
  shownAt (promise (runLoads (map Loaded [2; 0; 1])
                      (generateFinalImage (mkComposeEnv true true true)
                         (setTemplateStyle (mkStyle 2 4 0) wideBorderStrip))))
          100 790
  = ImagePixel "data:image/jpeg;base64,AAAA"
      (placement (Some Strip) (mkStyle 2 4 0) 1600 2400 0).
Proof.
  apply (composite_shows_every_photo (mkComposeEnv true true true)
           (setTemplateStyle (mkStyle 2 4 0) wideBorderStrip) Strip [2; 0; 1] 0
           (mkPhoto "1" "data:image/jpeg;base64,AAAA" 1) 100 790).
  - reflexivity.
  - reflexivity.
  - vm_compute. discriminate.
  - simpl. discriminate.
  - simpl. split; discriminate.
  - simpl. discriminate.
  - simpl. apply Permutation_sym.
    apply (perm_trans (perm_skip 0 (perm_swap 2 1 [])) (perm_swap 2 0 [1])).
  - reflexivity.
  - reflexivity.
Defined.

(** X12. Whatever load and failure events occur, at every point of the
    canvas that lies in no photo's rectangle and in no photo's border
    rectangle, the image the promise is fulfilled with shows the selected
    background: the colour of a plain background, the generated tile for
    "pattern", and white when the pattern could not be created. *)
Theorem background_shows_elsewhere (e : ComposeEnv) (s : AppState) (t : Template)
        (b : Background) (evs : list LoadEvent) (c : Surface) (q px py : Q) :
  selectedTemplate s = Some t ->
  In b backgrounds -> selectedBackground s = bg_id b ->
  promise (runLoads evs (generateFinalImage e s)) = Fulfilled (JpegOf c q) ->
  (0 <= px)%Q -> (px < 1600)%Q -> (0 <= py)%Q -> (py < inject_Z (outputHeight t))%Q ->
  (forall i, i < List.length (capturedPhotos s) ->
     let r := placement (Some t) (templateStyle s) 1600 (inject_Z (outputHeight t)) i in
     covers r px py = false /\ covers (borderRect (templateStyle s) r) px py = false) ->
  pixelAt c px py
  = Filled (if String.eqb (bg_id b) "pattern"
            then if createPatternOk e then Pattern (createPatternCanvas e)
                 else Color "#ffffff"
            else Color (bg_color b)).
Proof.
  intros Ht Hb Hsel Hful Hx0 Hx1 Hy0 Hy1 Hfree.
  destruct (degenerate_or_started e s) as [Hd|(t' & Ht' & Hp & Hc)].
  - destruct (generateFinalImage_degenerate e s Hd) as (Hpr & Himg & _).
    destruct (runLoads_no_images evs _ Himg) as [Hsame _]. congruence.
  - assert (t' = t) by congruence. subst t'.
    destruct (running_runLoads e s t Ht Hp Hc evs)
      as (_ & _ & _ & c1 & done & Hc1 & _ & _ & _ & _ & _ & _ & Hpr).
    rewrite Hpr in Hful. destruct (Nat.eqb _ _); [|discriminate].
    injection Hful as <- _.
    destruct (canvas_ops_run e s t Ht Hp Hc evs) as (c2 & l & Hc2 & _ & _ & Hops & Hl).
    assert (c2 = c1) by congruence. subst c2.
    destruct (preparedCanvas_ops e s t b Hb Hsel) as (F & Hbg & HF).
    unfold pixelAt. rewrite Hops, fold_left_app, Hbg. simpl.
    rewrite paintOver_uncovered.
    + unfold paintOver. simpl.
      rewrite (full_canvas_covers (outputHeight t) px py Hx0 Hx1 Hy0 Hy1).
      now rewrite HF.
    + intros op Hop. apply loadOps_rects in Hop as (i & Hi & [Hr|Hr]);
        rewrite Hr; destruct (Hfree i (Hl i Hi)) as [H1 H2]; assumption.
Qed.

Lemma background_shows_elsewhere_witness :
  shownAt (promise (runLoads (map Loaded [0; 1; 2])
                      (generateFinalImage (mkComposeEnv true true true)
                         (setTemplateStyle (mkStyle 2 4 0) wideBorderStrip))))
          2 2
  = Filled (Color "#ffffff").
Proof.
  set (g := runLoads (map Loaded [0; 1; 2])
              (generateFinalImage (mkComposeEnv true true true)
                 (setTemplateStyle (mkStyle 2 4 0) wideBorderStrip))).
  assert (Hg : exists c, promise g = Fulfilled (JpegOf c 1)).
  { eexists. vm_compute. reflexivity. }
  destruct Hg as (c & Hg). rewrite Hg. simpl.
  apply (background_shows_elsewhere (mkComposeEnv true true true)
           (setTemplateStyle (mkStyle 2 4 0) wideBorderStrip) Strip
           (mkBackground "white" "White" "#ffffff") (map Loaded [0; 1; 2]) c 1 2 2).
  - reflexivity.
  - simpl. auto.
  - reflexivity.
  - exact Hg.
  - discriminate.
  - reflexivity.
  - discriminate.
  - reflexivity.
  - intros i Hi. simpl in Hi.
    destruct i as [|[|[|i]]]; [| | |lia]; split; reflexivity.
Defined.

(** * Properties of the pattern tile and of the export *)

Section PatternTile.

Local Open Scope Q_scope.

Lemma tile_quadrant (px py : Q) (x y : Q) :
  covers (mkRect x y 10 10) px py = true <->
  x <= px /\ px < x + 10 /\ y <= py /\ py < y + 10.
Proof. apply (covers_spec (mkRect x y 10 10)); simpl; lra. Qed.

Lemma tile_quadrant_false (px py : Q) (x y : Q) :
  ~ (x <= px /\ px < x + 10 /\ y <= py /\ py < y + 10) ->
  covers (mkRect x y 10 10) px py = false.
Proof.
  intros H. apply (covers_false (mkRect x y 10 10)); simpl; [lra|lra|exact H].
Qed.

End PatternTile.

(** X14. The tile [createPatternCanvas] builds for the "pattern" background
    is a 20x20 checkerboard with no hole: a point of the tile is black when
    its two coordinates lie on the same side of 10, and white otherwise.
    Without a 2D context for the tile, nothing is painted on it. *)
Theorem pattern_tile_is_checkerboard (e : ComposeEnv) (px py : Q) :
  (0 <= px)%Q -> (px < 20)%Q -> (0 <= py)%Q -> (py < 20)%Q ->
  tileWidth (createPatternCanvas e) = 20%Z /\
  tileHeight (createPatternCanvas e) = 20%Z /\
  (patternCtx e = true ->
   ((px < 10 /\ py < 10) \/ (10 <= px /\ 10 <= py) ->
    tileColorAt (createPatternCanvas e) px py = Some "#000000"%string)%Q /\
   ((10 <= px /\ py < 10) \/ (px < 10 /\ 10 <= py) ->
    tileColorAt (createPatternCanvas e) px py = Some "#ffffff"%string)%Q) /\
  (patternCtx e = false -> tileColorAt (createPatternCanvas e) px py = None).
Proof.
  intros Hx0 Hx1 Hy0 Hy1. unfold createPatternCanvas.
  destruct (patternCtx e); simpl.
  - split; [reflexivity|]. split; [reflexivity|]. split; [|discriminate].
    intros _. unfold tileColorAt; simpl. split.
    + intros [[Hx Hy]|[Hx Hy]].
      * rewrite (proj2 (tile_quadrant px py 0 0)) by lra.
        rewrite !tile_quadrant_false by lra. reflexivity.
      * rewrite (tile_quadrant_false px py 0 0) by lra.
        rewrite (proj2 (tile_quadrant px py 10 10)) by lra.
        rewrite !tile_quadrant_false by lra. reflexivity.
    + intros [[Hx Hy]|[Hx Hy]].
      * rewrite (tile_quadrant_false px py 0 0) by lra.
        rewrite (tile_quadrant_false px py 10 10) by lra.
        rewrite (proj2 (tile_quadrant px py 10 0)) by lra.
        rewrite (tile_quadrant_false px py 0 10) by lra. reflexivity.
      * rewrite (tile_quadrant_false px py 0 0) by lra.
        rewrite (tile_quadrant_false px py 10 10) by lra.
        rewrite (tile_quadrant_false px py 10 0) by lra.
        rewrite (proj2 (tile_quadrant px py 0 10)) by lra. reflexivity.
  - split; [reflexivity|]. split; [reflexivity|]. split; [discriminate|].
    intros _. reflexivity.
Qed.

Lemma pattern_tile_is_checkerboard_witness :
  tileColorAt (createPatternCanvas (mkComposeEnv true true true)) 15 0
  = Some "#ffffff"%string.
Proof.
  assert (H := pattern_tile_is_checkerboard (mkComposeEnv true true true) 15 0).
  destruct H as (_ & _ & H & _).
  - discriminate.
  - reflexivity.
  - discriminate.
  - reflexivity.
  - destruct (H eq_refl) as [_ Hw]. apply Hw. left.
    split; [discriminate|reflexivity].
Defined.

Section PhotoExport.

Local Open Scope string_scope.

Lemma append_inj_l (a x y : string) : a ++ x = a ++ y -> x = y.
Proof. induction a as [|c a IH]; simpl; intros H; [exact H|]. injection H as H. auto. Qed.

Lemma uint_dash_prefix d1 : forall d2 r1 r2,
  NilEmpty.string_of_uint d1 ++ ("-" ++ r1)
  = NilEmpty.string_of_uint d2 ++ ("-" ++ r2) ->
  NilEmpty.string_of_uint d1 = NilEmpty.string_of_uint d2.
Proof.
  induction d1 as [|d1 IH|d1 IH|d1 IH|d1 IH|d1 IH|d1 IH|d1 IH|d1 IH|d1 IH|d1 IH];
    intros d2 r1 r2 H; destruct d2; simpl in *;
    try discriminate; try reflexivity;
    injection H as H; f_equal; eapply IH; exact H.
Qed.

Lemma toString_digits z :
  (0 <= z)%Z -> exists d, toString z = NilEmpty.string_of_uint d.
Proof.
  intros Hz. unfold toString. destruct z as [|p|p]; [| |lia].
  - exists (Decimal.D0 Decimal.Nil). reflexivity.
  - simpl. destruct (Pos.to_uint p) eqn:Hp;
      try (eexists; unfold NilZero.string_of_uint; reflexivity).
    exists (Decimal.D0 Decimal.Nil). reflexivity.
Qed.

Lemma to_int_proper z :
  Z.to_int z <> Decimal.Pos Decimal.Nil /\ Z.to_int z <> Decimal.Neg Decimal.Nil.
Proof.
  destruct z as [|p|p]; simpl; split; intros H; try discriminate;
    injection H as H; exact (DecimalPos.Unsigned.to_uint_nonnil p H).
Qed.

Lemma toString_inj a b : toString a = toString b -> a = b.
Proof.
  unfold toString. intros H. apply (f_equal NilZero.int_of_string) in H.
  destruct (to_int_proper a) as [Ha1 Ha2]. destruct (to_int_proper b) as [Hb1 Hb2].
  rewrite !NilZero.isi in H by assumption.
  injection H as H. now apply DecimalZ.to_int_inj.
Qed.

Lemma photoFilename_inj i j n m :
  photoFilename i n = photoFilename j m -> i = j.
Proof.
  unfold photoFilename. intros H. apply append_inj_l in H.
  destruct (toString_digits (Z.of_nat i + 1)) as (di & Hi); [lia|].
  destruct (toString_digits (Z.of_nat j + 1)) as (dj & Hj); [lia|].
  assert (Heq : toString (Z.of_nat i + 1) = toString (Z.of_nat j + 1)).
  { rewrite Hi, Hj. rewrite Hi, Hj in H. simpl in H.
    eapply uint_dash_prefix. exact H. }
  apply toString_inj in Heq. lia.
Qed.

Lemma map_fst_indexed {A} (l : list A) : forall from,
  map fst (indexed from l) = seq from (List.length l).
Proof. induction l as [|a l IH]; intros from; simpl; [reflexivity|]. now rewrite IH. Qed.

Lemma map_snd_indexed {A} (l : list A) : forall from,
  map snd (indexed from l) = l.
Proof. induction l as [|a l IH]; intros from; simpl; [reflexivity|]. now rewrite IH. Qed.

(** What one event does to the photo sequence. *)
Lemma handle_photos_cases ev s :
  capturedPhotos (handle ev s) = capturedPhotos s \/
  capturedPhotos (handle ev s) = [] \/
  exists t e, ev = TimerFires t e /\
    capturedPhotos (handle ev s)
    = (capturedPhotos s ++ [mkPhoto (toString (nowId e)) (frame e) (nowStamp e)])%list.
Proof.
  destruct ev; unfold handle;
    try (destruct (currentScreen s); simpl; auto; fail).
  - destruct (currentScreen s); auto. destruct (takePhotoDisabled s); auto.
  - destruct (currentScreen s); auto. destruct (remainingPhotos s =? 0)%Z; auto.
  - assert (Ht : capturedPhotos (timerTick t e s) = capturedPhotos s \/
                 capturedPhotos (timerTick t e s)
                 = (capturedPhotos s
                    ++ [mkPhoto (toString (nowId e)) (frame e) (nowStamp e)])%list).
    { unfold timerTick. destruct (existsb (Nat.eqb t) (timers s)); simpl; auto.
      assert (Hfire :
        capturedPhotos (setCountdown None (capturePhoto e (clearInterval t s)))
        = capturedPhotos s \/
        capturedPhotos (setCountdown None (capturePhoto e (clearInterval t s)))
        = (capturedPhotos s
           ++ [mkPhoto (toString (nowId e)) (frame e) (nowStamp e)])%list).
      { destruct (capturePhoto_cases e (clearInterval t s)) as [-> | (_ & _ & ->)];
          simpl; auto. }
      destruct (countdown s) as [prev|]; [|exact Hfire].
      destruct (prev <=? 1)%Z; [exact Hfire|auto]. }
    destruct Ht as [Ht|Ht];
      [left|right; right; exists t, e; split; [reflexivity|]];
      destruct (currentScreen s); exact Ht.
Qed.

(** An event that appends a photo is a timer firing that read the clock. *)
Lemma handle_photos_clock ev s :
  capturedPhotos (handle ev s) = capturedPhotos s \/
  capturedPhotos (handle ev s) = [] \/
  exists t e, ev = TimerFires t e /\ clockRead ev s = [nowId e] /\
    capturedPhotos (handle ev s)
    = (capturedPhotos s ++ [mkPhoto (toString (nowId e)) (frame e) (nowStamp e)])%list.
Proof.
  destruct (handle_photos_cases ev s) as [H|[H|(t & e & -> & H)]]; auto.
  assert (Ht : handle (TimerFires t e) s = timerTick t e s)
    by (unfold handle; destruct (currentScreen s); reflexivity).
  rewrite Ht in *.
  destruct (capturesAt t e s) eqn:Hc.
  - right. right. exists t, e. simpl. rewrite Hc. auto.
  - left. unfold capturesAt in Hc. unfold timerTick.
    destruct (existsb (Nat.eqb t) (timers s)); simpl in *; [|reflexivity].
    assert (Hno : refsAttached s && ctx2d e = false ->
                  capturedPhotos (setCountdown None (capturePhoto e (clearInterval t s)))
                  = capturedPhotos s).
    { intros Hg. unfold capturePhoto.
      change (refsAttached (clearInterval t s)) with (refsAttached s).
      destruct (refsAttached s); simpl in *; [|reflexivity].
      destruct (ctx2d e); simpl in *; [discriminate|reflexivity]. }
    destruct (countdown s) as [prev|]; [destruct (prev <=? 1)%Z|]; simpl in Hc.
    + apply Hno, Hc.
    + reflexivity.
    + apply Hno, Hc.
Qed.

Lemma photo_ids_distinct_from evs : forall s,
  NoDup (map id (capturedPhotos s)) ->
  (forall p n, In p (capturedPhotos s) -> In n (captureClocks evs s) ->
     id p <> toString n) ->
  NoDup (captureClocks evs s) ->
  NoDup (map id (capturedPhotos (run evs s))).
Proof.
  induction evs as [|ev evs IH]; intros s Hnd Hfresh Hclk; [exact Hnd|].
  change (run (ev :: evs) s) with (run evs (handle ev s)).
  simpl in Hfresh, Hclk.
  assert (Hclk' : NoDup (captureClocks evs (handle ev s)))
    by (eapply NoDup_app_remove_l; eauto).
  destruct (handle_photos_clock ev s) as [Heq|[Heq|(t & e & -> & Hread & Heq)]].
  - apply IH; rewrite ?Heq; [exact Hnd| |exact Hclk'].
    intros p n Hp Hn. apply Hfresh; [exact Hp|]. apply in_or_app. now right.
  - apply IH; rewrite ?Heq; [constructor| |exact Hclk'].
    intros p n [].
  - rewrite Hread in Hfresh, Hclk.
    apply IH; rewrite ?Heq; [| |exact Hclk'].
    + rewrite map_app. simpl.
      apply NoDup_app; [exact Hnd|repeat constructor; intros []|].
      intros a Ha [<-|[]]. apply in_map_iff in Ha as (p & Hid & Hp).
      apply (Hfresh p (nowId e) Hp); [now left|exact Hid].
    + intros p n Hp Hn. apply in_app_or in Hp as [Hp|[<-|[]]].
      * apply Hfresh; [exact Hp|]. apply in_or_app. now right.
      * simpl. intros H. apply toString_inj in H. subst n.
        simpl in Hclk. apply NoDup_cons_iff in Hclk as [Hnot _]. exact (Hnot Hn).
Qed.

End PhotoExport.

(** X15. The ALL PHOTOS button downloads every photo of the sequence exactly
    once, in sequence order, each from its own data URL; and whatever
    [Date.now()] returns for each of them, no two of the downloads get the
    same file name. *)
Theorem all_photos_export (clock : nat -> Z) (photos : list CapturedPhoto) :
  map href (downloadAllPhotos clock photos) = map dataUrl photos /\
  NoDup (map download (downloadAllPhotos clock photos)).
Proof.
  unfold downloadAllPhotos. rewrite !map_map. simpl. split.
  - rewrite <- (map_map snd dataUrl), map_snd_indexed. reflexivity.
  - rewrite <- (map_map fst (fun i => photoFilename i (clock i))), map_fst_indexed.
    apply NoDup_map_NoDup_ForallPairs; [|apply seq_NoDup].
    intros i j _ _ H. exact (photoFilename_inj i j _ _ H).
Qed.

(** X16. If the readings of [Date.now()] actually taken for photo ids
    during a session -- one per capture that passes its guards, none for the
    other ticks of a countdown -- are pairwise distinct, the photos held at
    any moment of the session have pairwise distinct ids:
    [Date.now().toString()] tells two different readings apart. *)
Theorem photo_ids_distinct (evs : list Event) :
  NoDup (captureClocks evs initialState) ->
  NoDup (map id (capturedPhotos (run evs initialState))).
Proof.
  intros Hclk. apply photo_ids_distinct_from; [constructor| |exact Hclk].
  intros p n [].
Qed.

Lemma photo_ids_distinct_witness :
  captureClocks
    ([ClickStartSession; ClickTemplateCard Strip;
      ClickTakePhoto;
      TimerFires 0 (mkCaptureEnv true "a" 10 10);
      TimerFires 0 (mkCaptureEnv true "a" 10 10);
      TimerFires 0 (mkCaptureEnv true "a" 10 10);
      ClickTakePhoto;
      TimerFires 1 (mkCaptureEnv true "b" 20 20);
      TimerFires 1 (mkCaptureEnv true "b" 20 20);
      TimerFires 1 (mkCaptureEnv true "b" 20 20)]) initialState = [10%Z; 20%Z] /\
  NoDup (map id (capturedPhotos
    (run [ClickStartSession; ClickTemplateCard Strip;
          ClickTakePhoto;
          TimerFires 0 (mkCaptureEnv true "a" 10 10);
          TimerFires 0 (mkCaptureEnv true "a" 10 10);
          TimerFires 0 (mkCaptureEnv true "a" 10 10);
          ClickTakePhoto;
          TimerFires 1 (mkCaptureEnv true "b" 20 20);
          TimerFires 1 (mkCaptureEnv true "b" 20 20);
          TimerFires 1 (mkCaptureEnv true "b" 20 20)] initialState))).
Proof.
  split; [reflexivity|].
  apply photo_ids_distinct.
  change (NoDup [10%Z; 20%Z]).
  repeat (constructor; [simpl; intuition discriminate|]). constructor.
Defined.

(** * Further properties of sessions *)

Local Open Scope Z_scope.

Lemma handle_keeps_countdown ev s :
  drivesCountdown ev = false ->
  countdown (handle ev s) = countdown s /\ timers (handle ev s) = timers s.
Proof.
  intros Hev. destruct ev; try discriminate; unfold handle;
    destruct (currentScreen s); simpl; auto.
  destruct (remainingPhotos s =? 0); simpl; auto.
Qed.

(** X17. A countdown cannot be cancelled: no event other than TAKE PHOTO
    and the firing of a timer -- not RETRY, not leaving the camera screen,
    not NEW SESSION -- changes the countdown or disarms its timer. *)
Theorem countdown_cannot_be_cancelled (evs : list Event) (s : AppState) :
  forallb (fun ev => negb (drivesCountdown ev)) evs = true ->
  countdown (run evs s) = countdown s /\ timers (run evs s) = timers s.
Proof.
  revert s. induction evs as [|ev evs IH]; intros s Hevs; [auto|].
  simpl in Hevs. apply andb_true_iff in Hevs as [Hev Hrest].
  apply negb_true_iff in Hev.
  change (run (ev :: evs) s) with (run evs (handle ev s)).
  destruct (handle_keeps_countdown ev s Hev) as [Hc Ht].
  destruct (IH (handle ev s) Hrest) as [-> ->]. auto.
Qed.

Lemma countdown_cannot_be_cancelled_witness :
  countdown (run [ClickRetry; ClickBackToTemplates; ClickTemplateCard Single] counting)
  = Some 2 /\
  timers (run [ClickRetry; ClickBackToTemplates; ClickTemplateCard Single] counting)
  = [0%nat].
Proof.
  apply (countdown_cannot_be_cancelled
           [ClickRetry; ClickBackToTemplates; ClickTemplateCard Single] counting).
  reflexivity.
Defined.

(** X18. In a session in which a template card is only ever clicked while
    no photo is held, the photo sequence never exceeds the selected
    template's photo count: the gate on TAKE PHOTO does its work. *)
Theorem bound_holds_in_fresh_sessions (evs : list Event) (s' : AppState) :
  freshRun evs initialState s' ->
  match selectedTemplate s' with
  | Some t => Z.of_nat (List.length (capturedPhotos s')) <= requiredCount t
  | None => True
  end.
Proof.
  intros H.
  assert (Hg : gated s').
  { pose proof gated_initial as Hinit. revert Hinit.
    induction H as [s|ev evs s s' Hf Hr IH]; intros Hinit; auto.
    apply IH. now apply gated_handle. }
  destruct Hg as (_ & _ & Hb).
  destruct (selectedTemplate s') as [t|] eqn:Ht; [|exact I]. now apply Hb.
Qed.

Lemma bound_holds_in_fresh_sessions_witness :
  match selectedTemplate (run (shot 0) (run [ClickTemplateCard Single]
                                 (run [ClickStartSession] initialState))) with
  | Some t =>
      Z.of_nat (List.length (capturedPhotos
        (run (shot 0) (run [ClickTemplateCard Single]
                         (run [ClickStartSession] initialState)))))
      <= requiredCount t
  | None => True
  end.
Proof.
  apply (bound_holds_in_fresh_sessions
           ([ClickStartSession; ClickTemplateCard Single] ++ shot 0)).
  apply freshRun_cons; [exact I|].
  apply freshRun_cons; [reflexivity|].
  apply freshRun_cons; [exact I|].
  apply freshRun_cons; [exact I|].
  apply freshRun_cons; [exact I|].
  apply freshRun_cons; [exact I|].
  apply freshRun_nil.
Defined.

(** * The border and the painted points, through whole runs *)

Local Open Scope nat_scope.

Section WholeRuns.

Variable e : ComposeEnv.
Variable s : AppState.
Variable t : Template.
Hypothesis Htemplate : selectedTemplate s = Some t.
Hypothesis Hphotos : capturedPhotos s <> [].
Hypothesis Hctx : canvasCtx e = true.

(** The commands on the canvas of a run, with the load handlers that ran:
    each ran once, and their number is [loadedCount]. *)
Lemma canvas_ops_loaded evs :
  exists c l,
    canvas (runLoads evs (generateFinalImage e s)) = Some c /\
    ops c = (ops (preparedCanvas e s t)
             ++ loadOps (Some t) (templateStyle s) (capturedPhotos s)
                        1600 (outputHeight t) l)%list /\
    NoDup l /\
    (forall i, In i l -> i < List.length (capturedPhotos s)) /\
    loadedCount (runLoads evs (generateFinalImage e s)) = Z.of_nat (List.length l) /\
    (forall i p, In (i, p) (images (runLoads evs (generateFinalImage e s))) ->
       ~ In i l).
Proof using Htemplate Hphotos Hctx.
  induction evs as [|ev evs IH] using rev_ind.
  - rewrite (generateFinalImage_started e s t Htemplate Hphotos Hctx). simpl.
    exists (preparedCanvas e s t), []. simpl. rewrite app_nil_r.
    repeat split; auto; try constructor; contradiction.
  - destruct IH as (c & l & Hc & Hops & Hnd & Hl & Hcount & Hfree).
    destruct (running_runLoads e s t Htemplate Hphotos Hctx evs)
      as (Ht & Hst & _ & c1 & done & Hc1 & Hw & Hh & _ & _ & _ & Himg & _).
    assert (c1 = c) by congruence. subst c1.
    unfold runLoads in *. rewrite fold_left_app. simpl.
    set (g := fold_left (fun st ev => settle ev st) evs (generateFinalImage e s)) in *.
    destruct ev as [i|i]; simpl.
    + unfold onload. rewrite Hc.
      destruct (lookupImage i (images g)) as [photo|] eqn:Hlook.
      * apply lookupImage_In in Hlook. destruct (Himg _ _ Hlook) as [Hnth _].
        simpl. rewrite Ht, Hst.
        exists (drawPhoto (Some t) (templateStyle s) i photo c), (l ++ [i])%list.
        split; [reflexivity|]. split; [|split; [|split; [|split]]].
        -- rewrite drawPhoto_ops, Hops, loadOps_app, Hw, Hh, <- app_assoc.
           f_equal. f_equal. unfold loadOps. simpl. rewrite Hnth.
           now rewrite app_nil_r.
        -- apply NoDup_app; [exact Hnd|repeat constructor; intros []|].
           intros a Ha [<-|[]]. exact (Hfree _ _ Hlook Ha).
        -- intros j Hj. apply in_app_or in Hj as [Hj|[<-|[]]]; [now apply Hl|].
           apply nth_error_Some. congruence.
        -- rewrite Hcount, length_app. simpl. lia.
        -- intros j q Hj Hin. apply removeImage_In in Hj as [Hj Hne].
           apply in_app_or in Hin as [Hin|[Heq|[]]]; [exact (Hfree _ _ Hj Hin)|].
           congruence.
      * exists c, l. repeat split; auto.
    + exists c, l. repeat split; auto.
      intros j q Hj. apply removeImage_In in Hj as [Hj _]. exact (Hfree _ _ Hj).
Qed.

Lemma loadOps_without_border st P w h l :
  ~ (0 < borderWidth st)%Q ->
  Forall (fun op => exists src r, op = DrawImage src r)
         (loadOps (Some t) st P w h l).
Proof.
  intros Hb. apply Forall_forall. intros op Hop.
  unfold loadOps in Hop. apply in_flat_map in Hop as (i & _ & Hop).
  destruct (nth_error P i) as [p|]; [|contradiction].
  unfold photoOps in Hop.
  destruct (Qlt_le_dec 0 (borderWidth st)); [contradiction|].
  destruct Hop as [<-|[]]. eauto.
Qed.



End WholeRuns.

Section TilePoints.

Local Open Scope Q_scope.



End TilePoints.

(** C6. In a run of [generateFinalImage] that gets as far as loading the
    images (any template, any photo sequence and any style), with
    [b = borderWidth] of the state's [templateStyle]:
    every photo of the sequence has an image with a load handler; whatever
    happened before, the load handler of a photo at index [i] appends to the
    canvas, when [b > 0], a rectangle filled in black ("#000000") and then
    the photo at its placement rectangle, the black rectangle's width and
    height being the placement rectangle's plus [4 * b] and its top-left
    corner the placement rectangle's minus [2 * b] on each axis, and when
    [b = 0] the photo alone; hence in the image the promise is fulfilled
    with, when [b > 0] every photo is drawn directly over its black
    rectangle, and when [b = 0] nothing but photos was drawn over the
    background. *)
Theorem border_inflation (e : ComposeEnv) (s : AppState) (t : Template) :
  selectedTemplate s = Some t ->
  capturedPhotos s <> [] ->
  canvasCtx e = true ->
  let b := borderWidth (templateStyle s) in
  let rect := placement (Some t) (templateStyle s) 1600 (inject_Z (outputHeight t)) in
  let inflated := fun br r : Rect =>
    (rw br == rw r + 4 * b /\ rh br == rh r + 4 * b /\
     rx br == rx r - 2 * b /\ ry br == ry r - 2 * b)%Q in
  (forall i p, nth_error (capturedPhotos s) i = Some p ->
     lookupImage i (images (generateFinalImage e s)) = Some p) /\
  (forall evs i p,
     let g := runLoads evs (generateFinalImage e s) in
     lookupImage i (images g) = Some p ->
     nth_error (capturedPhotos s) i = Some p /\
     exists c c',
       canvas g = Some c /\ canvas (onload i g) = Some c' /\
       ((0 < b)%Q ->
        exists br,
          ops c' = (ops c ++ [FillRect (Color "#000000") br;
                              DrawImage (dataUrl p) (rect i)])%list /\
          inflated br (rect i)) /\
       ((b == 0)%Q ->
        ops c' = (ops c ++ [DrawImage (dataUrl p) (rect i)])%list)) /\
  (forall evs c q,
     promise (runLoads evs (generateFinalImage e s)) = Fulfilled (JpegOf c q) ->
     ((0 < b)%Q ->
      forall i p, nth_error (capturedPhotos s) i = Some p ->
        exists before after br,
          ops c = (before ++ FillRect (Color "#000000") br
                          :: DrawImage (dataUrl p) (rect i) :: after)%list /\
          inflated br (rect i)) /\
     ((b == 0)%Q ->
      exists drawn,
        ops c = (ops (preparedCanvas e s t) ++ drawn)%list /\
        Forall (fun op => exists src r, op = DrawImage src r) drawn)).
Proof.
  intros Ht Hp Hc. cbv zeta. split; [|split].
  - intros i p Hnth.
    rewrite (generateFinalImage_started e s t Ht Hp Hc). simpl.
    rewrite lookupImage_indexed by lia. now rewrite Nat.sub_0_r.
  - intros evs i p Hlook.
    destruct (running_runLoads e s t Ht Hp Hc evs)
      as (Hgt & Hgst & _ & c & done & Hcan & Hw & Hh & _ & _ & _ & Himg & _).
    destruct (Himg _ _ (lookupImage_In _ _ _ Hlook)) as [Hnth _].
    split; [exact Hnth|].
    exists c, (drawPhoto (Some t) (templateStyle s) i p c).
    split; [exact Hcan|]. split.
    + unfold onload. rewrite Hlook, Hcan, Hgt, Hgst. reflexivity.
    + pose proof (drawPhoto_inflates_border t (templateStyle s) i p c) as H.
      cbv zeta in H. rewrite Hw, Hh in H.
      change (inject_Z 1600) with 1600%Q in H. exact H.
  - intros evs c q Hful.
    destruct (running_runLoads e s t Ht Hp Hc evs)
      as (_ & _ & _ & c1 & done & Hcan & _ & _ & _ & Hdone & _ & _ & Hpr).
    destruct (canvas_ops_loaded e s t Ht Hp Hc evs)
      as (c2 & l & Hcan2 & Hops & Hnd & Hl & Hcount & _).
    assert (c2 = c1) by congruence. subst c2.
    rewrite Hpr in Hful.
    destruct (Nat.eqb _ _) eqn:Hall; [|discriminate].
    injection Hful as <- _. apply Nat.eqb_eq in Hall.
    assert (Hlen : List.length l = List.length (capturedPhotos s)) by lia.
    split.
    + intros Hb i p Hnth.
      assert (Hi : In i l).
      { apply (distinct_indices_full l (List.length (capturedPhotos s)) i Hnd Hl Hlen).
        apply nth_error_Some. congruence. }
      apply in_split in Hi as (l1 & l2 & ->).
      change (i :: l2) with ([i] ++ l2)%list in Hops.
      rewrite !loadOps_app in Hops.
      exists (ops (preparedCanvas e s t)
              ++ loadOps (Some t) (templateStyle s) (capturedPhotos s)
                         1600 (outputHeight t) l1)%list,
             (loadOps (Some t) (templateStyle s) (capturedPhotos s)
                      1600 (outputHeight t) l2),
             (borderRect (templateStyle s)
                (placement (Some t) (templateStyle s) 1600
                           (inject_Z (outputHeight t)) i)).
      split.
      * rewrite Hops, <- app_assoc. f_equal. f_equal.
        unfold loadOps at 1. simpl. rewrite Hnth, app_nil_r.
        unfold photoOps.
        destruct (Qlt_le_dec 0 (borderWidth (templateStyle s))) as [_|Hle]; [|lra].
        reflexivity.
      * unfold borderRect; simpl. repeat split; ring.
    + intros Hb.
      exists (loadOps (Some t) (templateStyle s) (capturedPhotos s)
                      1600 (outputHeight t) l).
      split; [exact Hops|].
      apply loadOps_without_border. lra.
Qed.

Lemma border_inflation_witness :
  exists br,
    ops (preparedCanvas (mkComposeEnv true true true)
           (setTemplateStyle (mkStyle 2 4 0) wideBorderStrip) Strip)
    ++ [FillRect (Color "#000000") br;
        DrawImage "data:image/jpeg;base64,BBBB"
          (placement (Some Strip) (mkStyle 2 4 0) 1600 2400 1)]
    = [FillRect (Color "#ffffff") (mkRect 0 0 1600 2400);
       FillRect (Color "#000000") br;
       DrawImage "data:image/jpeg;base64,BBBB"
         (placement (Some Strip) (mkStyle 2 4 0) 1600 2400 1)] /\
    (rw br == 1592)%Q /\ (rx br == 4)%Q.
Proof.
  destruct (border_inflation (mkComposeEnv true true true)
              (setTemplateStyle (mkStyle 2 4 0) wideBorderStrip) Strip
              eq_refl ltac:(discriminate) eq_refl) as (_ & Hload & _).
  cbv zeta in Hload.
  destruct (Hload [] 1 (mkPhoto "2" "data:image/jpeg;base64,BBBB" 2) eq_refl)
    as (_ & c & c' & Hc & Hc' & Hb & _).
  destruct (Hb ltac:(reflexivity)) as (br & Hops & Hw & _ & Hx & _).
  exists br. split; [|split].
  - reflexivity.
  - rewrite Hw. reflexivity.
  - rewrite Hx. reflexivity.
Defined.


